(** * og-meta.js: Open Graph meta tag module

    A shallow embedding of [og-meta.js] and the properties of its
    metadata pipeline: parameter extraction, catalog lookup, URL
    normalisation, content synthesis and the upsert of meta tags into
    the document.

    JavaScript strings are sequences of UTF-16 code units; they are
    modelled as [list N].  The globals the script reads and writes
    ([window.location], [ARSIV], [document], [console]) form the record
    [World]; every function of the script that touches one of them is a
    computation in the monad [JS], which threads the world and carries a
    thrown exception. *)

From Stdlib Require Import ZArith NArith Lia.
From Stdlib Require DecimalPos.
From stdpp Require Import base option list gmap strings.

Local Open Scope N_scope.

(** ** Strings *)

Abbreviation jsstring := (list N).

Definition in_range (lo hi b : N) : bool := (lo <=? b) && (b <=? hi).

Module Utf8.

(** The WHATWG UTF-8 decoder (error mode "replacement"): the state is
    the code point under construction, the number of continuation
    bytes still needed and the bounds of the next byte. *)
Record pending := Pending { cp : N; needed : nat; lower : N; upper : N }.

Definition replacement : N := 0xFFFD.

(** A byte read with no sequence in progress. *)
Definition start (b : N) : list N * option pending :=
  if in_range 0x00 0x7F b then ([b], None)
  else if in_range 0xC2 0xDF b then
    ([], Some (Pending (N.land b 0x1F) 1 0x80 0xBF))
  else if in_range 0xE0 0xEF b then
    ([], Some (Pending (N.land b 0xF) 2
                 (if b =? 0xE0 then 0xA0 else 0x80)
                 (if b =? 0xED then 0x9F else 0xBF)))
  else if in_range 0xF0 0xF4 b then
    ([], Some (Pending (N.land b 0x7) 3
                 (if b =? 0xF0 then 0x90 else 0x80)
                 (if b =? 0xF4 then 0x8F else 0xBF)))
  else ([replacement], None).

(** One byte: a byte outside the bounds ends the sequence in error and
    is read again from the initial state. *)
Definition step (st : option pending) (b : N) : list N * option pending :=
  match st with
  | None => start b
  | Some p =>
      if in_range (lower p) (upper p) b then
        let c := N.lor (N.shiftl (cp p) 6) (N.land b 0x3F) in
        match needed p with
        | O | S O => ([c], None)
        | S n => ([], Some (Pending c n 0x80 0xBF))
        end
      else
        let '(out, st') := start b in (replacement :: out, st')
  end.

Fixpoint decode_from (st : option pending) (bytes : list N) : list N :=
  match bytes with
  | [] => match st with None => [] | Some _ => [replacement] end
  | b :: rest => let '(out, st') := step st b in out ++ decode_from st' rest
  end.

(** Code points of a byte sequence. *)
Definition decode (bytes : list N) : list N := decode_from None bytes.

(** UTF-8 encoding of one scalar value. *)
Definition encode_scalar (c : N) : list N :=
  if c <? 0x80 then [c]
  else if c <? 0x800 then
    [N.lor 0xC0 (N.shiftr c 6); N.lor 0x80 (N.land c 0x3F)]
  else if c <? 0x10000 then
    [N.lor 0xE0 (N.shiftr c 12);
     N.lor 0x80 (N.land (N.shiftr c 6) 0x3F);
     N.lor 0x80 (N.land c 0x3F)]
  else
    [N.lor 0xF0 (N.shiftr c 18);
     N.lor 0x80 (N.land (N.shiftr c 12) 0x3F);
     N.lor 0x80 (N.land (N.shiftr c 6) 0x3F);
     N.lor 0x80 (N.land c 0x3F)].

Definition encode (scalars : list N) : list N :=
  concat (map encode_scalar scalars).

End Utf8.

Module Utf16.

Definition is_lead (u : N) : bool := in_range 0xD800 0xDBFF u.
Definition is_trail (u : N) : bool := in_range 0xDC00 0xDFFF u.

(** UTF16EncodeCodePoint. *)
Definition encode_code_point (c : N) : jsstring :=
  if c <? 0x10000 then [c]
  else [0xD800 + N.shiftr (c - 0x10000) 10;
        0xDC00 + N.land (c - 0x10000) 0x3FF].

Definition encode (cps : list N) : jsstring :=
  concat (map encode_code_point cps).

(** Conversion to a scalar value string: a surrogate pair is one code
    point, a lone surrogate becomes U+FFFD. *)
Fixpoint to_scalars (s : jsstring) : list N :=
  match s with
  | [] => []
  | u :: rest =>
      if is_lead u then
        match rest with
        | v :: rest' =>
            if is_trail v
            then (0x10000 + N.shiftl (u - 0xD800) 10 + (v - 0xDC00))
                   :: to_scalars rest'
            else Utf8.replacement :: to_scalars rest
        | [] => [Utf8.replacement]
        end
      else if is_trail u then Utf8.replacement :: to_scalars rest
      else u :: to_scalars rest
  end.

End Utf16.

(** A string literal of the script, from its UTF-8 source text. *)
Definition js (src : string) : jsstring :=
  Utf16.encode
    (Utf8.decode (map (fun a => N.of_nat (Ascii.nat_of_ascii a))
                    (String.list_ascii_of_string src))).
Arguments js : simpl never.

(** [String.prototype.startsWith] at position 0. *)
Fixpoint startsWith (s search : jsstring) {struct search} : bool :=
  match search, s with
  | [], _ => true
  | _ :: _, [] => false
  | c :: search', u :: s' => (u =? c) && startsWith s' search'
  end.

(** [s.substring(start)]. *)
Definition substring (s : jsstring) (start : nat) : jsstring := drop start s.

(** The code units [trim] strips: WhiteSpace and LineTerminator. *)
Definition is_whitespace (u : N) : bool :=
  in_range 0x0009 0x000D u
  || (u =? 0x0020) || (u =? 0x00A0) || (u =? 0x1680)
  || in_range 0x2000 0x200A u
  || (u =? 0x2028) || (u =? 0x2029) || (u =? 0x202F) || (u =? 0x205F)
  || (u =? 0x3000) || (u =? 0xFEFF).

Fixpoint trimStart (s : jsstring) : jsstring :=
  match s with
  | [] => []
  | u :: rest => if is_whitespace u then trimStart rest else s
  end.

Definition trimEnd (s : jsstring) : jsstring := rev (trimStart (rev s)).

Definition trim (s : jsstring) : jsstring := trimEnd (trimStart s).

(** Truthiness of a value that is a string or [null]: only a non-empty
    string is truthy. *)
Definition truthy (v : option jsstring) : bool :=
  match v with
  | Some (_ :: _) => true
  | _ => false
  end.

(** ** Default meta tag values *)

Record DefaultMeta := {
  title : jsstring;
  description : jsstring;
  image : jsstring;
  siteName : jsstring;
  type : jsstring;
  twitterCard : jsstring
}.

Definition DEFAULT_META : DefaultMeta := {|
  title := js "ZebzeManga - Türkçe Manga Oku";
  description := js "ZebzeManga'da en yeni manga ve webtoon serilerini Türkçe okuyun. Güncel bölümler ve geniş arşiv.";
  image := js "https://zebzetoon.vercel.app/logo/zlogo.png";
  siteName := js "Zebze Toon";
  type := js "website";
  twitterCard := js "summary_large_image"
|}.

(** ** Numbers

    The numbers of the script are results of [parseInt]: NaN or an
    integer.  An integer is kept as its mathematical value, which is
    the value of the double for the [safe_number]s, the integers below
    2^53 in magnitude ([-0] prints as [0]); beyond them a double rounds
    and prints otherwise, and the properties that depend on the value
    or the digits of a number are stated for safe numbers. *)

Inductive number := NaN | Num (z : Z).

(** NaN and the integers below 2^53 in magnitude. *)
Definition safe_number (n : number) : bool :=
  match n with
  | NaN => true
  | Num z => (Z.abs z <? 2 ^ 53)%Z
  end.

Fixpoint uint_digits (d : Decimal.uint) : jsstring :=
  match d with
  | Decimal.Nil => []
  | Decimal.D0 d => 48 :: uint_digits d
  | Decimal.D1 d => 49 :: uint_digits d
  | Decimal.D2 d => 50 :: uint_digits d
  | Decimal.D3 d => 51 :: uint_digits d
  | Decimal.D4 d => 52 :: uint_digits d
  | Decimal.D5 d => 53 :: uint_digits d
  | Decimal.D6 d => 54 :: uint_digits d
  | Decimal.D7 d => 55 :: uint_digits d
  | Decimal.D8 d => 56 :: uint_digits d
  | Decimal.D9 d => 57 :: uint_digits d
  end.

(** [Number::toString] in radix 10, as a template literal applies it:
    the decimal digits of a safe number. *)
Definition ToString (n : number) : jsstring :=
  match n with
  | NaN => js "NaN"
  | Num z =>
      match Z.to_int z with
      | Decimal.Pos d => uint_digits d
      | Decimal.Neg d => js "-" ++ uint_digits d
      end
  end.

(** The value of a code unit as a digit, for radices up to 36. *)
Definition digit_value (u : N) : option N :=
  if in_range 48 57 u then Some (u - 48)
  else if in_range 97 122 u then Some (u - 97 + 10)
  else if in_range 65 90 u then Some (u - 65 + 10)
  else None.

Definition radix_digit (R u : N) : option N :=
  match digit_value u with
  | Some d => if d <? R then Some d else None
  | None => None
  end.

(** The longest prefix of radix-[R] digits. *)
Fixpoint radix_prefix (R : N) (s : jsstring) : list N :=
  match s with
  | [] => []
  | u :: rest =>
      match radix_digit R u with
      | Some d => d :: radix_prefix R rest
      | None => []
      end
  end.

Definition radix_value (R : N) (digits : list N) : N :=
  fold_left (fun acc d => R * acc + d) digits 0.

(** [parseInt(string, radix)]; the integer read is the result itself
    when it is a safe number. *)
Definition parseInt (string : jsstring) (radix : N) : number :=
  let inputS := trimStart string in
  let '(sign, inputS) :=
    match inputS with
    | 45 :: rest => ((-1)%Z, rest)
    | 43 :: rest => (1%Z, rest)
    | _ => (1%Z, inputS)
    end in
  if negb (radix =? 0) && ((radix <? 2) || (36 <? radix)) then NaN
  else
    let stripPrefix := (radix =? 0) || (radix =? 16) in
    let R := if radix =? 0 then 10 else radix in
    let '(R, inputS) :=
      match inputS with
      | 48 :: x :: rest =>
          if stripPrefix && ((x =? 120) || (x =? 88)) then (16, rest)
          else (R, inputS)
      | _ => (R, inputS)
      end in
    match radix_prefix R inputS with
    | [] => NaN
    | digits => Num (sign * Z.of_N (radix_value R digits))
    end.

(** ** Exceptions and percent-decoding *)

Inductive exn := URIError | ReferenceError | TypeError.

Inductive Result (A : Type) :=
| Ok (a : A)
| Throw (e : exn).
Arguments Ok {A} a.
Arguments Throw {A} e.

Definition result_map {A B} (f : A -> B) (r : Result A) : Result B :=
  match r with
  | Ok a => Ok (f a)
  | Throw e => Throw e
  end.

Definition hex_value (u : N) : option N :=
  match digit_value u with
  | Some d => if d <? 16 then Some d else None
  | None => None
  end.

Definition ParseHexOctet (h1 h2 : N) : option N :=
  match hex_value h1, hex_value h2 with
  | Some a, Some b => Some (16 * a + b)
  | _, _ => None
  end.

(** The number of leading 1 bits of an octet. *)
Definition leading_ones (B : N) : nat :=
  if B <? 0x80 then 0
  else if B <? 0xC0 then 1
  else if B <? 0xE0 then 2
  else if B <? 0xF0 then 3
  else if B <? 0xF8 then 4
  else 5.

Definition continuation_bits (acc : N) (octets : list N) : N :=
  fold_left (fun a b => N.lor (N.shiftl a 6) (N.land b 0x3F)) octets acc.

(** The code point a list of octets encodes, when the list is the valid
    UTF-8 encoding of one Unicode scalar value. *)
Definition utf8_code_point (octets : list N) : option N :=
  match octets with
  | [] => None
  | B :: conts =>
      let payload :=
        match leading_ones B with
        | 0%nat => B
        | 2%nat => N.land B 0x1F
        | 3%nat => N.land B 0x0F
        | _ => N.land B 0x07
        end in
      let V := continuation_bits payload conts in
      if bool_decide (Utf8.encode_scalar V = octets)
         && negb (in_range 0xD800 0xDFFF V) && (V <=? 0x10FFFF)
      then Some V else None
  end.

(** [Decode(string, "")] of ECMA-262.  [pend] holds the continuation
    octets still expected and the octets read so far of a multi-octet
    sequence; every failure is a [URIError]. *)
Fixpoint Decode (pend : option (nat * list N)) (s : jsstring)
  : Result jsstring :=
  match s with
  | [] => match pend with None => Ok [] | Some _ => Throw URIError end
  | C :: rest =>
      if C =? 37 then
        match rest with
        | h1 :: h2 :: rest' =>
            match ParseHexOctet h1 h2 with
            | None => Throw URIError
            | Some B =>
                match pend with
                | None =>
                    match leading_ones B with
                    | 0%nat => result_map (cons B) (Decode None rest')
                    | 1%nat => Throw URIError
                    | S j =>
                        if (4 <? S j)%nat then Throw URIError
                        else Decode (Some (j, [B])) rest'
                    end
                | Some (j, octets) =>
                    match j with
                    | 0%nat => Throw URIError
                    | 1%nat =>
                        match utf8_code_point (octets ++ [B]) with
                        | None => Throw URIError
                        | Some V =>
                            result_map (app (Utf16.encode_code_point V))
                              (Decode None rest')
                        end
                    | S j' => Decode (Some (j', octets ++ [B])) rest'
                    end
                end
            end
        | _ => Throw URIError
        end
      else
        match pend with
        | None => result_map (cons C) (Decode None rest)
        | Some _ => Throw URIError
        end
  end.

Definition decodeURIComponent (encodedURIComponent : jsstring)
  : Result jsstring :=
  Decode None encodedURIComponent.

(** ** URLSearchParams *)

Module URLSearchParams.

Fixpoint split_acc (sep : N) (cur : list N) (bytes : list N)
  : list (list N) :=
  match bytes with
  | [] => [rev cur]
  | b :: rest =>
      if b =? sep then rev cur :: split_acc sep [] rest
      else split_acc sep (b :: cur) rest
  end.

Definition split (sep : N) (bytes : list N) : list (list N) :=
  split_acc sep [] bytes.

(** Name and value of one sequence: cut at the first [=]. *)
Fixpoint cut (bytes : list N) : list N * list N :=
  match bytes with
  | [] => ([], [])
  | b :: rest =>
      if b =? 0x3D then ([], rest)
      else let '(name, value) := cut rest in (b :: name, value)
  end.

Definition plus_to_space (bytes : list N) : list N :=
  map (fun b => if b =? 0x2B then 0x20 else b) bytes.

Fixpoint percent_decode (bytes : list N) : list N :=
  match bytes with
  | [] => []
  | b :: rest =>
      if b =? 0x25 then
        match rest with
        | h1 :: h2 :: rest' =>
            match ParseHexOctet h1 h2 with
            | Some v => v :: percent_decode rest'
            | None => b :: percent_decode rest
            end
        | _ => b :: percent_decode rest
        end
      else b :: percent_decode rest
  end.

Definition decode_component (bytes : list N) : jsstring :=
  Utf16.encode (Utf8.decode (percent_decode (plus_to_space bytes))).

(** The application/x-www-form-urlencoded parser. *)
Definition parse (input : jsstring) : list (jsstring * jsstring) :=
  let bytes := Utf8.encode (Utf16.to_scalars input) in
  omap (fun sequence =>
          match sequence with
          | [] => None
          | _ => let '(name, value) := cut sequence in
                 Some (decode_component name, decode_component value)
          end)
       (split 0x26 bytes).

(** [new URLSearchParams(init)] for a string: one leading [?] is
    dropped. *)
Definition new (init : jsstring) : list (jsstring * jsstring) :=
  match init with
  | 0x3F :: init' => parse init'
  | _ => parse init
  end.

(** [get(name)]: the value of the first pair named [name], or null. *)
Fixpoint get (params : list (jsstring * jsstring)) (name : jsstring)
  : option jsstring :=
  match params with
  | [] => None
  | (n, v) :: rest => if bool_decide (n = name) then Some v else get rest name
  end.

End URLSearchParams.

(** ** The document

    Only elements and their attributes matter to the script.  The
    document has its [<head>]; it is the list of the elements inside
    the head, in document order, followed by the elements after it. *)

Record Element := {
  localName : jsstring;
  attributes : list (jsstring * jsstring)
}.

Fixpoint attr_get (attrs : list (jsstring * jsstring)) (name : jsstring)
  : option jsstring :=
  match attrs with
  | [] => None
  | (n, v) :: rest => if bool_decide (n = name) then Some v else attr_get rest name
  end.

(** An attribute that exists keeps its place, a new one goes last. *)
Fixpoint attr_set (attrs : list (jsstring * jsstring)) (name value : jsstring)
  : list (jsstring * jsstring) :=
  match attrs with
  | [] => [(name, value)]
  | (n, v) :: rest =>
      if bool_decide (n = name) then (n, value) :: rest
      else (n, v) :: attr_set rest name value
  end.

Definition getAttribute (e : Element) (name : jsstring) : option jsstring :=
  attr_get (attributes e) name.

Definition setAttribute (name value : jsstring) (e : Element) : Element :=
  {| localName := localName e;
     attributes := attr_set (attributes e) name value |}.

Definition createElement (name : jsstring) : Element :=
  {| localName := name; attributes := [] |}.

Record Document := {
  head_elements : list Element;
  later_elements : list Element
}.

(** A reference to an element of the document. *)
Inductive NodeRef :=
| InHead (i : nat)
| AfterHead (i : nat).

Global Instance NodeRef_eq_dec : EqDecision NodeRef.
Proof. solve_decision. Defined.

(** The selector [meta[attr="value"]]. *)
Definition matches_meta (attr value : jsstring) (e : Element) : bool :=
  bool_decide (localName e = js "meta")
  && bool_decide (getAttribute e attr = Some value).

Fixpoint find_index (p : Element -> bool) (l : list Element) : option nat :=
  match l with
  | [] => None
  | e :: rest => if p e then Some 0%nat else S <$> find_index p rest
  end.

(** [document.querySelector] with the selector [meta[attr="value"]]:
    the first match in document order.  The script builds the selector
    by pasting [value] between double quotes, so this is its meaning
    for a [value] that is [selector_safe]. *)
Definition querySelector (attr value : jsstring) (d : Document)
  : option NodeRef :=
  match find_index (matches_meta attr value) (head_elements d) with
  | Some i => Some (InHead i)
  | None => AfterHead <$> find_index (matches_meta attr value) (later_elements d)
  end.

(** Code units a quoted CSS string holds verbatim: no quote, no
    backslash, no NUL or line break, no surrogate. *)
Definition selector_safe_unit (u : N) : bool :=
  negb ((u =? 0x22) || (u =? 0x5C) || (u =? 0x00) || (u =? 0x0A)
        || (u =? 0x0C) || (u =? 0x0D) || in_range 0xD800 0xDFFF u).

Definition selector_safe (key : jsstring) : bool := forallb selector_safe_unit key.

Definition node_lookup (r : NodeRef) (d : Document) : option Element :=
  match r with
  | InHead i => head_elements d !! i
  | AfterHead i => later_elements d !! i
  end.

(** [tag.setAttribute(name, value)] on the element [r] refers to. *)
Definition node_setAttribute (r : NodeRef) (name value : jsstring)
  (d : Document) : Document :=
  match r with
  | InHead i =>
      {| head_elements := alter (setAttribute name value) i (head_elements d);
         later_elements := later_elements d |}
  | AfterHead i =>
      {| head_elements := head_elements d;
         later_elements := alter (setAttribute name value) i (later_elements d) |}
  end.

(** [document.head.appendChild(tag)] for a new element. *)
Definition head_appendChild (e : Element) (d : Document) : Document :=
  {| head_elements := head_elements d ++ [e];
     later_elements := later_elements d |}.

(** ** The catalog *)

Record SeriesMeta := {
  kapak : option jsstring;
  ozet : option jsstring;
  yazar : option jsstring;
  banner : option jsstring
}.

Record SeriesEntry := { meta : option SeriesMeta }.

(** The global [ARSIV]: no such binding (the script that declares the
    catalog did not run), or its value: not yet assigned, null, or an
    object whose own keys are series names. *)
Inductive Catalog :=
| CatUndeclared
| CatUndefined
| CatNull
| CatObject (entries : gmap jsstring SeriesEntry).

(** Truthiness and [typeof] of the value of the binding. *)
Definition catalog_truthy (c : Catalog) : bool :=
  match c with
  | CatObject _ => true
  | CatUndeclared | CatUndefined | CatNull => false
  end.

Definition typeof (c : Catalog) : jsstring :=
  match c with
  | CatUndeclared | CatUndefined => js "undefined"
  | CatNull | CatObject _ => js "object"
  end.

(** The entry an object catalog holds under a name; any other state of
    the binding holds none. *)
Definition catalog_get (c : Catalog) (seriesName : jsstring)
  : option SeriesEntry :=
  match c with
  | CatObject entries => entries !! seriesName
  | CatUndeclared | CatUndefined | CatNull => None
  end.

(** ** The world and the monad of the script *)

Record Location := { search : jsstring; href : jsstring }.

Record LogEntry := {
  log_series : option jsstring;
  log_chapter : option number;
  log_tagsUpdated : nat
}.

Record World := {
  location : Location;
  ARSIV : Catalog;
  document : Document;
  console : list LogEntry
}.

Definition JS (A : Type) : Type := World -> Result A * World.

Definition ret {A} (a : A) : JS A := fun w => (Ok a, w).

Definition bind {A B} (m : JS A) (k : A -> JS B) : JS B :=
  fun w =>
    match m w with
    | (Ok a, w') => k a w'
    | (Throw e, w') => (Throw e, w')
    end.

Definition lift {A} (r : Result A) : JS A := fun w => (r, w).

Definition read {A} (f : World -> A) : JS A := fun w => (Ok (f w), w).

Definition update_document (f : Document -> Document) : JS unit :=
  fun w => (Ok tt, {| location := location w; ARSIV := ARSIV w;
                      document := f (document w); console := console w |}).

Definition console_log (entry : LogEntry) : JS unit :=
  fun w => (Ok tt, {| location := location w; ARSIV := ARSIV w;
                      document := document w;
                      console := console w ++ [entry] |}).

Declare Scope js_scope.
Delimit Scope js_scope with js.
Notation "x <- m ;; k" := (bind m (fun x => k))
  (at level 100, m at next level, right associativity) : js_scope.
Notation "m ;;; k" := (bind m (fun _ => k))
  (at level 100, right associativity) : js_scope.
Local Open Scope js_scope.

(** ** parseURLParameters *)

Record Params := { seri : option jsstring; bolum : option number }.

(** [seriParam ? decodeURIComponent(seriParam) : null] and the same test
    on [bolumParam]: the value is used when it is a non-empty string. *)
Definition parseURLParameters : JS Params :=
  params <- read (fun w => URLSearchParams.new (search (location w))) ;;
  let seriParam := URLSearchParams.get params (js "seri") in
  seri <- match seriParam with
          | Some ((_ :: _) as nonempty) =>
              decoded <- lift (decodeURIComponent nonempty) ;; ret (Some decoded)
          | _ => ret None
          end ;;
  let bolumParam := URLSearchParams.get params (js "bolum") in
  let bolum := match bolumParam with
               | Some ((_ :: _) as nonempty) => Some (parseInt nonempty 10)
               | _ => None
               end in
  ret {| seri := seri; bolum := bolum |}.

(** ** getSeriesData *)

(** Evaluating the identifier [ARSIV] throws a ReferenceError when
    there is no such binding. *)
Definition global_ARSIV : JS Catalog :=
  fun w =>
    match ARSIV w with
    | CatUndeclared => (Throw ReferenceError, w)
    | value => (Ok value, w)
    end.

(** [Object.keys(value)] and [value[seriesName]]: a TypeError on
    undefined and null. *)
Definition Object_keys (value : Catalog) : Result (list jsstring) :=
  match value with
  | CatObject entries => Ok (map_to_list entries).*1
  | CatUndeclared | CatUndefined | CatNull => Throw TypeError
  end.

Definition catalog_index (value : Catalog) (seriesName : jsstring)
  : Result (option SeriesEntry) :=
  match value with
  | CatObject entries => Ok (entries !! seriesName)
  | CatUndeclared | CatUndefined | CatNull => Throw TypeError
  end.

(** The three tests of the guard are tried in turn.  An entry of the
    catalog and its [meta] are objects, hence truthy when they exist. *)
Definition getSeriesData (seriesName : jsstring) : JS (option SeriesMeta) :=
  arsiv <- global_ARSIV ;;
  if negb (catalog_truthy arsiv) then ret None
  else if negb (bool_decide (typeof arsiv = js "object")) then ret None
  else
    keys <- lift (Object_keys arsiv) ;;
    if bool_decide (length keys = 0%nat) then ret None
    else
      series <- lift (catalog_index arsiv seriesName) ;;
      match series with
      | Some entry =>
          match meta entry with
          | Some m => ret (Some m)
          | None => ret None
          end
      | None => ret None
      end.

(** ** setMetaTag and setMetaTags *)

Record TagDefinition := { property : jsstring; content : jsstring }.

(** The two selectors are pasted from the key, so this is the function
    for a [selector_safe] key; with a quote or a backslash in the key
    the selector is another one, or none and [querySelector] throws.
    The properties of [setMetaTag] and [setMetaTags] below are stated
    for selector-safe keys; the ten keys the script writes are such. *)
Definition setMetaTag (property content : jsstring) : JS unit :=
  tag <- read (fun w => querySelector (js "property") property (document w)) ;;
  tag <- match tag with
         | Some _ => ret tag
         | None => read (fun w => querySelector (js "name") property (document w))
         end ;;
  match tag with
  | Some tag => update_document (node_setAttribute tag (js "content") content)
  | None =>
      let tag := createElement (js "meta") in
      let tag := if startsWith property (js "og:")
                 then setAttribute (js "property") property tag
                 else setAttribute (js "name") property tag in
      let tag := setAttribute (js "content") content tag in
      update_document (head_appendChild tag)
  end.

(** [Array.prototype.forEach]: the calls run in list order and a throw
    ends the loop. *)
Fixpoint setMetaTags (tagDefinitions : list TagDefinition) : JS unit :=
  match tagDefinitions with
  | [] => ret tt
  | t :: rest => setMetaTag (property t) (content t) ;;; setMetaTags rest
  end.

(** ** convertToAbsoluteURL *)

Definition convertToAbsoluteURL (url : option jsstring) : jsstring :=
  match url with
  | None => image DEFAULT_META
  | Some u =>
      if negb (truthy url) || bool_decide (trim u = []) then
        image DEFAULT_META
      else if startsWith u (js "http://") || startsWith u (js "https://") then
        u
      else
        let cleanUrl := if startsWith u (js "/") then substring u 1 else u in
        js "https://zebzetoon.vercel.app/" ++ cleanUrl
  end.

(** ** generateOpenGraphContent *)

Definition generateOpenGraphContent (params : Params)
  (seriesData : option SeriesMeta) : JS (list TagDefinition) :=
  let title :=
    match seri params with
    | Some ((_ :: _) as name) =>           (* params.seri is truthy *)
        match bolum params with
        | Some chapter =>                  (* params.bolum !== null *)
            name ++ js " - Bölüm " ++ ToString chapter
        | None => name
        end
    | _ => title DEFAULT_META
    end in
  let description :=
    match seriesData with
    | Some data =>
        match ozet data with
        | Some ((_ :: _) as summary) => summary   (* seriesData.ozet is truthy *)
        | _ => description DEFAULT_META
        end
    | None => description DEFAULT_META
    end in
  let imageUrl :=
    match seriesData with
    | Some data =>
        if truthy (kapak data) then convertToAbsoluteURL (kapak data)
        else image DEFAULT_META
    | None => image DEFAULT_META
    end in
  pageUrl <- read (fun w => href (location w)) ;;
  ret [ {| property := js "og:title"; content := title |};
        {| property := js "og:description"; content := description |};
        {| property := js "og:image"; content := imageUrl |};
        {| property := js "og:url"; content := pageUrl |};
        {| property := js "og:type"; content := type DEFAULT_META |};
        {| property := js "og:site_name"; content := siteName DEFAULT_META |};
        {| property := js "twitter:card"; content := twitterCard DEFAULT_META |};
        {| property := js "twitter:title"; content := title |};
        {| property := js "twitter:description"; content := description |};
        {| property := js "twitter:image"; content := imageUrl |} ].

(** ** initializeOpenGraphTags *)

Definition initializeOpenGraphTags : JS unit :=
  params <- parseURLParameters ;;
  seriesData <- (if truthy (seri params) then getSeriesData (default [] (seri params))
                 else ret None) ;;
  metaTags <- generateOpenGraphContent params seriesData ;;
  setMetaTags metaTags ;;;
  console_log {| log_series := seri params; log_chapter := bolum params;
                 log_tagsUpdated := length metaTags |}.

(** ** Vocabulary of the properties *)

(** The input begins with [http://] or [https://]. *)
Definition is_absolute (u : jsstring) : bool :=
  startsWith u (js "http://") || startsWith u (js "https://").

(** The input consists of white space only (the empty string included). *)
Definition is_blank (u : jsstring) : bool := forallb is_whitespace u.

(** The tags a synthesis returns. *)
Definition synthesized (params : Params) (seriesData : option SeriesMeta)
  (w : World) : list TagDefinition :=
  match generateOpenGraphContent params seriesData w with
  | (Ok tags, _) => tags
  | (Throw _, _) => []
  end.

(** The value of the first tag of a list under a key. *)
Definition content_of (key : jsstring) (tags : list TagDefinition)
  : option jsstring :=
  content <$> List.find (fun t => bool_decide (property t = key)) tags.

(** The title the synthesizer gives to a parameter set. *)
Definition og_title (w : World) (seriesData : option SeriesMeta)
  (params : Params) : option jsstring :=
  content_of (js "og:title") (synthesized params seriesData w).

(** A page of the site: the address of chapter 8 of a catalogued series
    and a head that already holds two meta tags. *)
Definition sample_world : World := {|
  location := {|
    search := js "?seri=%C3%96l%C3%BCm%20Pakt%C4%B1&bolum=8";
    href := js "https://zebzetoon.vercel.app/?seri=%C3%96l%C3%BCm%20Pakt%C4%B1&bolum=8" |};
  ARSIV := CatObject
    {[ js "Ölüm Paktı" :=
         {| meta := Some {| kapak := Some (js "/kapak/olum.jpg");
                            ozet := Some (js "Bir pakt.");
                            yazar := Some (js "Z");
                            banner := None |} |} ]};
  document := {|
    head_elements :=
      [ {| localName := js "title"; attributes := [] |};
        {| localName := js "meta";
           attributes := [(js "property", js "og:title"); (js "content", js "Eski")] |};
        {| localName := js "meta";
           attributes := [(js "name", js "twitter:card"); (js "content", js "summary")] |} ];
    later_elements := [ {| localName := js "div"; attributes := [] |} ] |};
  console := []
|}.

(** The catalog is not assigned, null or without keys. *)
Definition catalog_empty (c : Catalog) : Prop :=
  c = CatUndefined \/ c = CatNull \/ c = CatObject ∅.

(** The element [setMetaTag] finds for a key: by [property] first, by
    [name] otherwise. *)
Definition find_tag (key : jsstring) (d : Document) : option NodeRef :=
  match querySelector (js "property") key d with
  | Some r => Some r
  | None => querySelector (js "name") key d
  end.

(** The element [setMetaTag] creates for a key it does not find. *)
Definition new_tag (key value : jsstring) : Element :=
  setAttribute (js "content") value
    (if startsWith key (js "og:")
     then setAttribute (js "property") key (createElement (js "meta"))
     else setAttribute (js "name") key (createElement (js "meta"))).

(** What one call of [setMetaTag] does to the document. *)
Definition upsert (key value : jsstring) (d : Document) : Document :=
  match find_tag key d with
  | Some r => node_setAttribute r (js "content") value d
  | None => head_appendChild (new_tag key value) d
  end.

(** What [setMetaTags] does to the document. *)
Definition upsert_all (tags : list TagDefinition) (d : Document) : Document :=
  fold_left (fun d t => upsert (property t) (content t) d) tags d.

(** The world with another document. *)
Definition with_document (d : Document) (w : World) : World :=
  {| location := location w; ARSIV := ARSIV w; document := d;
     console := console w |}.

(** A sequence of writes of the [content] attribute. *)
Definition apply_writes (writes : list (NodeRef * jsstring)) (d : Document)
  : Document :=
  fold_left (fun d '(r, v) => node_setAttribute r (js "content") v d) writes d.

(** The writes a list of tags amounts to when each key is found. *)
Definition writes_of (tags : list TagDefinition) (d : Document)
  : list (NodeRef * jsstring) :=
  omap (fun t => (fun r => (r, content t)) <$> find_tag (property t) d) tags.

(** The reference points at an element of the document. *)
Definition valid_ref (r : NodeRef) (d : Document) : Prop :=
  is_Some (node_lookup r d).

(** A page whose [seri] value is "100%" once the query string has been
    parsed. *)
Definition percent_world : World := {|
  location := {| search := js "?seri=100%25&bolum=8";
                 href := js "https://zebzetoon.vercel.app/?seri=100%25&bolum=8" |};
  ARSIV := ARSIV sample_world;
  document := document sample_world;
  console := []
|}.

(** The page of [sample_world] when the script that declares the
    catalog did not run. *)
Definition undeclared_world : World := {|
  location := location sample_world;
  ARSIV := CatUndeclared;
  document := document sample_world;
  console := []
|}.

(** The content a reader of the document finds under a key: the
    [content] attribute of the element [setMetaTag] would find. *)
Definition read_content (key : jsstring) (d : Document) : option jsstring :=
  match find_tag key d with
  | Some r =>
      match node_lookup r d with
      | Some e => getAttribute e (js "content")
      | None => None
      end
  | None => None
  end.

(** The element does not carry a [property] and a [name] at once. *)
Definition single_keyed (e : Element) : bool :=
  match getAttribute e (js "property"), getAttribute e (js "name") with
  | Some _, Some _ => false
  | _, _ => true
  end.

(** No element of the document carries both attributes. *)
Definition well_keyed (d : Document) : bool :=
  forallb single_keyed (head_elements d)
  && forallb single_keyed (later_elements d).

(** The keys of the tags the script writes. *)
Definition meta_keys : list jsstring :=
  [ js "og:title"; js "og:description"; js "og:image"; js "og:url";
    js "og:type"; js "og:site_name"; js "twitter:card"; js "twitter:title";
    js "twitter:description"; js "twitter:image" ].

(** A code unit that a query string carries as it is: ASCII, and none of
    [%], [&], [+] and [=]. *)
Definition plain_unit (u : N) : bool :=
  (u <? 0x80) && negb ((u =? 37) || (u =? 38) || (u =? 43) || (u =? 61)).

(** A decimal digit. *)
Definition digit_unit (u : N) : bool := in_range 48 57 u.

(** The value of a string of decimal digits. *)
Definition decimal_value (digits : jsstring) : N :=
  fold_left (fun acc u => 10 * acc + (u - 48)) digits 0.

(** The record the orchestrator resolves for the parameters: the
    catalog is consulted only for a truthy series. *)
Definition resolve (w : World) (params : Params) : option SeriesMeta :=
  if truthy (seri params) then
    match catalog_get (ARSIV w) (default [] (seri params)) with
    | Some entry => meta entry
    | None => None
    end
  else None.

(** The world a run that does not throw ends in. *)
Definition run_result (w : World) (params : Params) : World := {|
  location := location w;
  ARSIV := ARSIV w;
  document := upsert_all (synthesized params (resolve w params) w) (document w);
  console := console w ++ [ {| log_series := seri params;
                               log_chapter := bolum params;
                               log_tagsUpdated := 10 |} ]
|}.

Example meta_keys_selector_safe : forallb selector_safe meta_keys = true.
Proof. reflexivity. Qed.

Example js_ascii : js "og:title" = [111; 103; 58; 116; 105; 116; 108; 101].
Proof. reflexivity. Qed.

Example js_turkish : js "Ölüm Paktı" = [214; 108; 252; 109; 32; 80; 97; 107; 116; 305].
Proof. reflexivity. Qed.

Example convert_relative :
  convertToAbsoluteURL (Some (js "images/cover.jpg"))
  = js "https://zebzetoon.vercel.app/images/cover.jpg".
Proof. reflexivity. Qed.

Example getSeriesData_exact_name :
  fst (getSeriesData (js "Ölüm Paktı") sample_world)
  = Ok (Some {| kapak := Some (js "/kapak/olum.jpg"); ozet := Some (js "Bir pakt.");
                yazar := Some (js "Z"); banner := None |})
  /\ fst (getSeriesData (js "ölüm paktı") sample_world) = Ok None.
Proof. split; reflexivity. Qed.

Example setMetaTag_creates_by_prefix :
  head_elements (upsert (js "og:url") (js "u") {| head_elements := []; later_elements := [] |})
  = [ {| localName := js "meta";
         attributes := [(js "property", js "og:url"); (js "content", js "u")] |} ]
  /\ head_elements (upsert (js "twitter:card") (js "c") {| head_elements := []; later_elements := [] |})
     = [ {| localName := js "meta";
            attributes := [(js "name", js "twitter:card"); (js "content", js "c")] |} ].
Proof. split; reflexivity. Qed.

Example convert_blank :
  convertToAbsoluteURL (Some (js "   ")) = image DEFAULT_META
  /\ convertToAbsoluteURL (Some []) = image DEFAULT_META
  /\ convertToAbsoluteURL (Some (js "/")) = js "https://zebzetoon.vercel.app/".
Proof. repeat split. Qed.

Example title_of_unparsable_chapter :
  og_title sample_world None
    {| seri := Some (js "Ölüm Paktı"); bolum := Some (parseInt (js "abc") 10) |}
  = Some (js "Ölüm Paktı - Bölüm NaN").
Proof. reflexivity. Qed.

Example parseInt_8 : parseInt (js "8") 10 = Num 8.
Proof. reflexivity. Qed.

Example parseInt_prefix : parseInt (js "  -12abc") 10 = Num (-12).
Proof. reflexivity. Qed.

Example parseInt_abc : parseInt (js "abc") 10 = NaN.
Proof. reflexivity. Qed.

Example ToString_neg : ToString (Num (-305)) = js "-305".
Proof. reflexivity. Qed.

Example decode_turkish :
  decodeURIComponent (js "%C3%96l%C3%BCm%20Pakt%C4%B1") = Ok (js "Ölüm Paktı").
Proof. reflexivity. Qed.

Example decode_overlong : decodeURIComponent (js "%C0%80") = Throw URIError.
Proof. reflexivity. Qed.

Example decode_lone_percent : decodeURIComponent (js "100%") = Throw URIError.
Proof. reflexivity. Qed.

Example search_params :
  URLSearchParams.new (js "?seri=%C3%96l%C3%BCm+Pakt%C4%B1&bolum=8&&x")
  = [(js "seri", js "Ölüm Paktı"); (js "bolum", js "8"); (js "x", [])].
Proof. reflexivity. Qed.

(** * Properties *)

(** Literals are evaluated to their code units where a proof needs them. *)
Ltac eval_js :=
  repeat match goal with
         | |- context [js ?s] =>
             let v := eval vm_compute in (js s) in change (js s) with v
         | H : context [js ?s] |- _ =>
             let v := eval vm_compute in (js s) in change (js s) with v in H
         end.

(** ** Strings *)

Lemma trimStart_nil (s : jsstring) :
  trimStart s = [] <-> forallb is_whitespace s = true.
Proof.
  induction s as [|u s IH]; simpl; [tauto|].
  destruct (is_whitespace u); simpl; [exact IH|].
  split; discriminate.
Qed.

Lemma forallb_rev (p : N -> bool) (s : jsstring) :
  forallb p (rev s) = forallb p s.
Proof.
  induction s as [|u s IH]; simpl; [reflexivity|].
  rewrite forallb_app, IH. simpl. rewrite andb_true_r. apply andb_comm.
Qed.

Lemma trimStart_blank (s : jsstring) :
  forallb is_whitespace (trimStart s) = forallb is_whitespace s.
Proof.
  induction s as [|u s IH]; simpl; [reflexivity|].
  destruct (is_whitespace u) eqn:E; simpl; [exact IH|].
  now rewrite E.
Qed.

(** [url.trim() === ''] holds exactly for a string of white space. *)
Lemma trim_nil (s : jsstring) :
  trim s = [] <-> forallb is_whitespace s = true.
Proof.
  unfold trim, trimEnd.
  rewrite <- (trimStart_blank s), <- (forallb_rev _ (trimStart s)).
  rewrite <- trimStart_nil.
  split; intros H.
  - apply (f_equal (@rev N)) in H. now rewrite rev_involutive in H.
  - now rewrite H.
Qed.

Lemma startsWith_app (s search : jsstring) :
  startsWith s search = true <-> exists rest, s = search ++ rest.
Proof.
  revert s; induction search as [|c search IH]; intros s; simpl.
  - split; eauto.
  - destruct s as [|u s]; simpl.
    + split; [discriminate|]. intros [rest H]; discriminate.
    + rewrite andb_true_iff, N.eqb_eq, IH. split.
      * intros [-> [rest ->]]. eauto.
      * intros [rest H]. injection H as -> ->. eauto.
Qed.

(** ** convertToAbsoluteURL *)

Lemma absolute_not_blank (u : jsstring) :
  is_absolute u = true -> truthy (Some u) = true /\ trim u <> [].
Proof.
  unfold is_absolute. intros H.
  assert (exists rest, u = 104 :: rest) as [rest ->].
  { apply orb_true_iff in H as [H|H]; apply startsWith_app in H as [r ->];
      eval_js; simpl; eauto. }
  split; [reflexivity|].
  rewrite trim_nil. simpl. discriminate.
Qed.

Lemma convert_relative_path (p : jsstring) :
  is_blank p = false -> is_absolute p = false ->
  convertToAbsoluteURL (Some p)
  = js "https://zebzetoon.vercel.app/"
      ++ (if startsWith p (js "/") then substring p 1 else p).
Proof.
  intros Hb Ha. unfold convertToAbsoluteURL.
  assert (trim p <> []) as Ht.
  { rewrite trim_nil. unfold is_blank in Hb. now rewrite Hb. }
  assert (truthy (Some p) = true) as ->.
  { destruct p; [now contradiction Ht|reflexivity]. }
  rewrite bool_decide_eq_false_2 by exact Ht. cbn [negb orb].
  unfold is_absolute in Ha. now rewrite Ha.
Qed.

Lemma convertToAbsoluteURL_cases (url : option jsstring) :
  convertToAbsoluteURL url = image DEFAULT_META
  \/ (exists c s, url = Some (c :: s) /\ convertToAbsoluteURL url = c :: s)
  \/ (exists path,
        convertToAbsoluteURL url = js "https://zebzetoon.vercel.app/" ++ path).
Proof.
  destruct url as [u|]; [|now left].
  unfold convertToAbsoluteURL.
  destruct (negb (truthy (Some u)) || bool_decide (trim u = [])) eqn:E;
    [now left|].
  apply orb_false_iff in E as [E _]. apply negb_false_iff in E.
  destruct u as [|c s]; [discriminate|].
  destruct (startsWith (c :: s) (js "http://") || startsWith (c :: s) (js "https://"));
    [right; left; eauto|right; right; eauto].
Qed.

Lemma convertToAbsoluteURL_cons (url : option jsstring) :
  exists c s, convertToAbsoluteURL url = c :: s.
Proof.
  destruct (convertToAbsoluteURL_cases url) as [->|[(c & s & _ & ->)|[path ->]]].
  - vm_compute. eauto.
  - eauto.
  - eval_js. simpl. eauto.
Qed.

(** C8. The URL normalizer returns a result for every possibly-absent
    string (absent, empty, blank, relative or absolute): the default
    image, the input itself or the base origin followed by a path; the
    result is never the empty string. *)
Theorem convertToAbsoluteURL_total (url : option jsstring) :
  exists result,
    convertToAbsoluteURL url = result
    /\ result <> []
    /\ (result = image DEFAULT_META
        \/ url = Some result
        \/ exists path, result = js "https://zebzetoon.vercel.app/" ++ path).
Proof.
  exists (convertToAbsoluteURL url). split; [reflexivity|]. split.
  - destruct (convertToAbsoluteURL_cons url) as (c & s & ->). discriminate.
  - destruct (convertToAbsoluteURL_cases url) as [H|[(c & s & -> & H)|[path H]]].
    + now left.
    + right; left. now rewrite H.
    + right; right. eauto.
Qed.

(** C4. The normalizer sends the absent input to the default image,
    returns an input that begins with [http://] or [https://]
    unchanged, and gives a relative path the same result with or
    without one leading slash: the base origin followed by the path. *)
Theorem convertToAbsoluteURL_invariants (abs p : jsstring)
  (Habs : is_absolute abs = true)
  (Hblank : is_blank p = false)
  (Hrel : is_absolute p = false)
  (Hslash : startsWith p (js "/") = false) :
  convertToAbsoluteURL None = image DEFAULT_META
  /\ convertToAbsoluteURL (Some abs) = abs
  /\ convertToAbsoluteURL (Some (js "/" ++ p)) = convertToAbsoluteURL (Some p)
  /\ convertToAbsoluteURL (Some p) = js "https://zebzetoon.vercel.app" ++ js "/" ++ p.
Proof.
  split; [reflexivity|]. split.
  - destruct (absolute_not_blank abs Habs) as [Ht Hn].
    unfold convertToAbsoluteURL. rewrite Ht.
    rewrite bool_decide_eq_false_2 by exact Hn.
    unfold is_absolute in Habs. cbn [negb orb]. now rewrite Habs.
  - rewrite (convert_relative_path p Hblank Hrel), Hslash.
    rewrite convert_relative_path.
    + split; [|reflexivity]. eval_js. reflexivity.
    + eval_js. reflexivity.
    + eval_js. reflexivity.
Qed.

Lemma convertToAbsoluteURL_invariants_witness :
  convertToAbsoluteURL None = image DEFAULT_META
  /\ convertToAbsoluteURL (Some (js "https://x/y")) = js "https://x/y"
  /\ convertToAbsoluteURL (Some (js "/" ++ js "a/b"))
     = convertToAbsoluteURL (Some (js "a/b"))
  /\ convertToAbsoluteURL (Some (js "a/b"))
     = js "https://zebzetoon.vercel.app" ++ js "/" ++ js "a/b".
Proof.
  apply (convertToAbsoluteURL_invariants (js "https://x/y") (js "a/b"));
    reflexivity.
Defined.

(** ** generateOpenGraphContent *)

Lemma title_nonempty (params : Params) :
  match seri params with
  | Some ((_ :: _) as name) =>
      match bolum params with
      | Some chapter => name ++ js " - Bölüm " ++ ToString chapter
      | None => name
      end
  | _ => title DEFAULT_META
  end <> [].
Proof.
  destruct (seri params) as [[|c s]|]; try (vm_compute; discriminate).
  destruct (bolum params); intros H; discriminate H.
Qed.

Lemma description_nonempty (seriesData : option SeriesMeta) :
  match seriesData with
  | Some data =>
      match ozet data with
      | Some ((_ :: _) as summary) => summary
      | _ => description DEFAULT_META
      end
  | None => description DEFAULT_META
  end <> [].
Proof.
  destruct seriesData as [data|]; [|vm_compute; discriminate].
  destruct (ozet data) as [[|c s]|]; try (vm_compute; discriminate).
Qed.

Lemma image_nonempty (seriesData : option SeriesMeta) :
  match seriesData with
  | Some data =>
      if truthy (kapak data) then convertToAbsoluteURL (kapak data)
      else image DEFAULT_META
  | None => image DEFAULT_META
  end <> [].
Proof.
  destruct seriesData as [data|]; [|vm_compute; discriminate].
  destruct (truthy (kapak data)); [|vm_compute; discriminate].
  destruct (convertToAbsoluteURL_cons (kapak data)) as (c & s & ->).
  intros H; discriminate H.
Qed.

Lemma generateOpenGraphContent_run
  (params : Params) (seriesData : option SeriesMeta) (w : World) :
  generateOpenGraphContent params seriesData w
  = (Ok (synthesized params seriesData w), w)
  /\ length (synthesized params seriesData w) = 10%nat.
Proof. split; reflexivity. Qed.

(** C1. For every parameter set and every resolution result the
    synthesizer returns exactly ten tags, in the order og:title,
    og:description, og:image, og:url, og:type, og:site_name,
    twitter:card, twitter:title, twitter:description, twitter:image,
    and the title, description and image in it are non-empty. *)
Theorem generateOpenGraphContent_ten_tags
  (params : Params) (seriesData : option SeriesMeta) (w : World) :
  exists t d i u ty sn tc tt td ti,
    generateOpenGraphContent params seriesData w
    = (Ok [ {| property := js "og:title"; content := t |};
            {| property := js "og:description"; content := d |};
            {| property := js "og:image"; content := i |};
            {| property := js "og:url"; content := u |};
            {| property := js "og:type"; content := ty |};
            {| property := js "og:site_name"; content := sn |};
            {| property := js "twitter:card"; content := tc |};
            {| property := js "twitter:title"; content := tt |};
            {| property := js "twitter:description"; content := td |};
            {| property := js "twitter:image"; content := ti |} ], w)
    /\ length (synthesized params seriesData w) = 10%nat
    /\ t <> [] /\ d <> [] /\ i <> [].
Proof.
  unfold synthesized, generateOpenGraphContent, bind, read, ret.
  do 10 eexists. split; [reflexivity|]. split; [reflexivity|].
  split; [apply title_nonempty|].
  split; [apply description_nonempty|apply image_nonempty].
Qed.

(** C5. In every synthesized list the Twitter title, description and
    image carry the values of their Open Graph counterparts. *)
Theorem twitter_mirrors_open_graph
  (params : Params) (seriesData : option SeriesMeta) (w : World) :
  let tags := synthesized params seriesData w in
  generateOpenGraphContent params seriesData w = (Ok tags, w)
  /\ is_Some (content_of (js "og:title") tags)
  /\ is_Some (content_of (js "og:description") tags)
  /\ is_Some (content_of (js "og:image") tags)
  /\ content_of (js "twitter:title") tags = content_of (js "og:title") tags
  /\ content_of (js "twitter:description") tags
     = content_of (js "og:description") tags
  /\ content_of (js "twitter:image") tags = content_of (js "og:image") tags.
Proof.
  unfold synthesized, generateOpenGraphContent, bind, read, ret.
  repeat split; try (eexists; reflexivity).
Qed.

Lemma og_title_eq (w : World) (seriesData : option SeriesMeta) (params : Params) :
  og_title w seriesData params
  = Some match seri params with
         | Some ((_ :: _) as name) =>
             match bolum params with
             | Some chapter => name ++ js " - Bölüm " ++ ToString chapter
             | None => name
             end
         | _ => title DEFAULT_META
         end.
Proof. reflexivity. Qed.

(** C2. The title follows the three-way branch, first match winning.
    A series is present when the parameters hold a non-empty string
    (the extractor returns null for an empty value) and a chapter when
    they hold a number, here a safe one (NaN or an integer below 2^53
    in magnitude): series and chapter give "series - Bölüm chapter", a
    series without chapter gives the series alone, and no series, null
    or the empty string, gives the default title. *)
Theorem title_rule (w : World) (seriesData : option SeriesMeta)
  (name : jsstring) (chapter : number) (any : option number)
  (Hname : name <> [])
  (Hsafe : safe_number chapter = true) :
  og_title w seriesData {| seri := Some name; bolum := Some chapter |}
  = Some (name ++ js " - Bölüm " ++ ToString chapter)
  /\ og_title w seriesData {| seri := Some name; bolum := None |} = Some name
  /\ og_title w seriesData {| seri := None; bolum := any |}
     = Some (title DEFAULT_META)
  /\ og_title w seriesData {| seri := Some []; bolum := any |}
     = Some (title DEFAULT_META).
Proof.
  rewrite !og_title_eq. simpl seri; simpl bolum.
  destruct name as [|c s]; [contradiction|]. repeat split.
Qed.

Lemma title_rule_witness :
  og_title sample_world None
    {| seri := Some (js "Ölüm Paktı"); bolum := Some (Num 8) |}
  = Some (js "Ölüm Paktı - Bölüm 8")
  /\ og_title sample_world None
       {| seri := Some (js "Ölüm Paktı"); bolum := None |}
     = Some (js "Ölüm Paktı")
  /\ og_title sample_world None {| seri := None; bolum := Some (Num 8) |}
     = Some (title DEFAULT_META)
  /\ og_title sample_world None {| seri := Some []; bolum := Some (Num 8) |}
     = Some (title DEFAULT_META).
Proof.
  apply (title_rule sample_world None (js "Ölüm Paktı") (Num 8) (Some (Num 8)));
    [vm_compute; discriminate|reflexivity].
Defined.

(** C10. A chapter is present when it is not null, whatever its
    truthiness: with a series present (a non-empty string), every
    integer chapter below 2^53 in magnitude, zero and the negative ones
    included, takes the first branch and gives "series - Bölüm chapter";
    chapter 0 gives "series - Bölüm 0" and not the bare series. *)
Theorem chapter_presence_is_not_truthiness
  (w : World) (seriesData : option SeriesMeta) (name : jsstring) (z : Z)
  (Hname : name <> [])
  (Hz : (Z.abs z < 2 ^ 53)%Z) :
  og_title w seriesData {| seri := Some name; bolum := Some (Num z) |}
  = Some (name ++ js " - Bölüm " ++ ToString (Num z))
  /\ og_title w seriesData {| seri := Some name; bolum := Some (Num 0) |}
     = Some (name ++ js " - Bölüm 0")
  /\ og_title w seriesData {| seri := Some name; bolum := Some (Num 0) |}
     <> Some name.
Proof.
  rewrite !og_title_eq. simpl seri; simpl bolum.
  destruct name as [|c s]; [contradiction|]. repeat split.
  intros H. injection H as H.
  apply (f_equal (@length N)) in H. rewrite length_app in H.
  simpl length in H. lia.
Qed.

Lemma chapter_presence_is_not_truthiness_witness :
  og_title sample_world None
    {| seri := Some (js "Ölüm Paktı"); bolum := Some (Num (-3)) |}
  = Some (js "Ölüm Paktı - Bölüm -3")
  /\ og_title sample_world None
       {| seri := Some (js "Ölüm Paktı"); bolum := Some (Num 0) |}
     = Some (js "Ölüm Paktı - Bölüm 0")
  /\ og_title sample_world None
       {| seri := Some (js "Ölüm Paktı"); bolum := Some (Num 0) |}
     <> Some (js "Ölüm Paktı").
Proof.
  apply (chapter_presence_is_not_truthiness sample_world None
           (js "Ölüm Paktı") (-3)%Z);
    [vm_compute; discriminate|reflexivity].
Defined.

(** ** getSeriesData *)

Lemma catalog_keys_empty (entries : gmap jsstring SeriesEntry) :
  length ((map_to_list entries).*1) = 0%nat <-> entries = ∅.
Proof.
  rewrite length_fmap, length_zero_iff_nil.
  apply map_to_list_empty_iff.
Qed.

(** What the resolver does in each state of the binding. *)
Lemma getSeriesData_cases (seriesName : jsstring) (w : World) :
  getSeriesData seriesName w
  = match ARSIV w with
    | CatUndeclared => (Throw ReferenceError, w)
    | CatUndefined | CatNull => (Ok None, w)
    | CatObject entries =>
        (Ok match entries !! seriesName with
            | Some entry => meta entry
            | None => None
            end, w)
    end.
Proof.
  unfold getSeriesData, global_ARSIV, bind, lift, ret.
  destruct (ARSIV w) as [| | |entries]; try reflexivity.
  cbn [catalog_truthy typeof negb Object_keys catalog_index].
  rewrite (bool_decide_eq_true_2 (js "object" = js "object")) by reflexivity.
  cbn [negb]. case_bool_decide as Hk.
  - apply catalog_keys_empty in Hk. subst entries.
    now rewrite lookup_empty.
  - destruct (entries !! seriesName) as [entry|]; [|reflexivity].
    now destruct (meta entry).
Qed.

(** On a declared binding the resolver returns and leaves the world as
    it was. *)
Lemma getSeriesData_returns (seriesName : jsstring) (w : World) :
  ARSIV w <> CatUndeclared ->
  exists r, getSeriesData seriesName w = (Ok r, w).
Proof.
  intros Hd. rewrite getSeriesData_cases.
  destruct (ARSIV w); [contradiction|eauto..].
Qed.

(** On a declared binding: null exactly when the catalog is empty or
    not assigned, or has no entry under the exact name, or the entry has
    no [meta]; the entry's [meta] otherwise. *)
Lemma getSeriesData_declared (seriesName : jsstring) (w : World) :
  ARSIV w <> CatUndeclared ->
  exists r,
    getSeriesData seriesName w = (Ok r, w)
    /\ (r = None <->
        catalog_empty (ARSIV w)
        \/ exists entries,
            ARSIV w = CatObject entries
            /\ (entries !! seriesName = None
                \/ exists series, entries !! seriesName = Some series
                                  /\ meta series = None))
    /\ (forall m, r = Some m <->
        exists entries series,
          ARSIV w = CatObject entries
          /\ entries !! seriesName = Some series
          /\ meta series = Some m).
Proof.
  intros Hd. rewrite getSeriesData_cases. unfold catalog_empty.
  destruct (ARSIV w) as [| | |entries] eqn:Hc; [contradiction|..].
  - exists None. split; [reflexivity|]. split; [naive_solver|].
    intros m. split; [discriminate|]. intros (e & s & H & _). discriminate.
  - exists None. split; [reflexivity|]. split; [naive_solver|].
    intros m. split; [discriminate|]. intros (e & s & H & _). discriminate.
  - eexists. split; [reflexivity|].
    destruct (entries !! seriesName) as [series|] eqn:Hl;
      [destruct (meta series) as [m0|] eqn:Hm|].
    + split.
      * split; [discriminate|].
        intros [[H|[H|H]]|(e & H & [Hn|(s & Hs & Hn)])]; simplify_map_eq.
      * intros m. split.
        -- intros H. simplify_eq. eauto.
        -- intros (e & s & H & Hs & Hn). simplify_eq. reflexivity.
    + split.
      * split; [|reflexivity]. intros _. right. eauto 6.
      * intros m. split; [discriminate|].
        intros (e & s & H & Hs & Hn). simplify_eq.
    + split.
      * split; [|reflexivity]. intros _. right. eauto.
      * intros m. split; [discriminate|].
        intros (e & s & H & Hs & Hn). simplify_eq.
Qed.

Lemma getSeriesData_throws_undeclared (seriesName : jsstring) (w : World) :
  ARSIV w = CatUndeclared ->
  getSeriesData seriesName w = (Throw ReferenceError, w).
Proof. intros H. rewrite getSeriesData_cases. now rewrite H. Qed.

(** C6. The resolver does not return "not found" for an absent
    catalog: when the binding [ARSIV] does not exist, the first test of
    the guard throws a ReferenceError, for every series name, and the
    world is left as it was. *)
Theorem getSeriesData_throws_without_catalog
  (seriesName : jsstring) (w : World)
  (Habsent : ARSIV w = CatUndeclared) :
  getSeriesData seriesName w = (Throw ReferenceError, w).
Proof. now apply getSeriesData_throws_undeclared. Qed.

Lemma getSeriesData_throws_without_catalog_witness :
  getSeriesData (js "Ölüm Paktı") undeclared_world
  = (Throw ReferenceError, undeclared_world).
Proof.
  exact (getSeriesData_throws_without_catalog (js "Ölüm Paktı")
           undeclared_world eq_refl).
Defined.

(** ** setMetaTag and setMetaTags on the document *)

Lemma setMetaTag_run (key value : jsstring) (w : World) :
  setMetaTag key value w
  = (Ok tt, with_document (upsert key value (document w)) w).
Proof.
  unfold setMetaTag, upsert, find_tag, new_tag, bind, read, ret.
  destruct (querySelector (js "property") key (document w)) as [r|];
    [reflexivity|].
  destruct (querySelector (js "name") key (document w)) as [r|];
    [reflexivity|].
  unfold update_document, with_document.
  destruct (startsWith key (js "og:")); reflexivity.
Qed.

Lemma with_document_twice (d d' : Document) (w : World) :
  with_document d (with_document d' w) = with_document d w.
Proof. reflexivity. Qed.

Lemma setMetaTags_run (tags : list TagDefinition) (w : World) :
  setMetaTags tags w
  = (Ok tt, with_document (upsert_all tags (document w)) w).
Proof.
  revert w; induction tags as [|t tags IH]; intros w; simpl.
  - destruct w; reflexivity.
  - unfold bind. rewrite setMetaTag_run, IH. reflexivity.
Qed.

(** *** Attributes *)

Lemma attr_get_set_ne (attrs : list (jsstring * jsstring))
  (name name' value : jsstring) :
  name <> name' ->
  attr_get (attr_set attrs name value) name' = attr_get attrs name'.
Proof.
  intros Hne. induction attrs as [|[n v] attrs IH]; simpl.
  - now rewrite bool_decide_eq_false_2.
  - case_bool_decide as E; simpl.
    + subst n. now rewrite !bool_decide_eq_false_2.
    + now rewrite IH.
Qed.

Lemma attr_get_set_eq (attrs : list (jsstring * jsstring))
  (name value : jsstring) :
  attr_get (attr_set attrs name value) name = Some value.
Proof.
  induction attrs as [|[n v] attrs IH]; simpl.
  - now rewrite bool_decide_eq_true_2.
  - case_bool_decide as E; simpl.
    + now rewrite bool_decide_eq_true_2.
    + now rewrite bool_decide_eq_false_2.
Qed.

Lemma attr_set_set (attrs : list (jsstring * jsstring))
  (name value value' : jsstring) :
  attr_set (attr_set attrs name value') name value = attr_set attrs name value.
Proof.
  induction attrs as [|[n v] attrs IH]; simpl.
  - now rewrite bool_decide_eq_true_2.
  - case_bool_decide as E; simpl.
    + now rewrite bool_decide_eq_true_2.
    + now rewrite bool_decide_eq_false_2, IH.
Qed.

Lemma setAttribute_twice (name value value' : jsstring) (e : Element) :
  setAttribute name value (setAttribute name value' e) = setAttribute name value e.
Proof. unfold setAttribute; simpl. now rewrite attr_set_set. Qed.

Lemma getAttribute_content (name value : jsstring) (e : Element) :
  getAttribute (setAttribute name value e) name = Some value.
Proof. apply attr_get_set_eq. Qed.

Lemma matches_meta_set_content (attr key value : jsstring) (e : Element) :
  attr <> js "content" ->
  matches_meta attr key (setAttribute (js "content") value e)
  = matches_meta attr key e.
Proof.
  intros Hne. unfold matches_meta, getAttribute, setAttribute; simpl.
  now rewrite attr_get_set_ne.
Qed.

(** *** Searching *)

Lemma find_index_alter (p : Element -> bool) (f : Element -> Element)
  (i : nat) (l : list Element) :
  (forall e, p (f e) = p e) ->
  find_index p (alter f i l) = find_index p l.
Proof.
  intros Hf. revert i; induction l as [|e l IH]; intros [|i]; simpl;
    try reflexivity.
  - now rewrite Hf.
  - change (list_alter f i l) with (alter f i l). now rewrite IH.
Qed.

Lemma find_index_lt (p : Element -> bool) (l : list Element) (i : nat) :
  find_index p l = Some i -> (i < length l)%nat.
Proof.
  revert i; induction l as [|e l IH]; intros i; simpl; [discriminate|].
  destruct (p e).
  - intros [= <-]. lia.
  - destruct (find_index p l) as [j|]; simpl; [|discriminate].
    intros [= <-]. specialize (IH j eq_refl). lia.
Qed.

Lemma find_index_app_Some (p : Element -> bool) (l l' : list Element) (i : nat) :
  find_index p l = Some i -> find_index p (l ++ l') = Some i.
Proof.
  revert i; induction l as [|e l IH]; intros i; simpl; [discriminate|].
  destruct (p e); [auto|].
  destruct (find_index p l) as [j|]; simpl; [|discriminate].
  intros [= <-]. now rewrite (IH j eq_refl).
Qed.

Lemma find_index_app_None (p : Element -> bool) (l : list Element) (e : Element) :
  find_index p l = None ->
  find_index p (l ++ [e]) = if p e then Some (length l) else None.
Proof.
  induction l as [|e' l IH]; simpl.
  - intros _. now destruct (p e).
  - destruct (p e'); [discriminate|].
    destruct (find_index p l) as [j|]; simpl; [discriminate|].
    intros _. rewrite IH by reflexivity. now destruct (p e).
Qed.

Lemma querySelector_set_content (attr key value : jsstring) (r : NodeRef)
  (d : Document) :
  attr <> js "content" ->
  querySelector attr key (node_setAttribute r (js "content") value d)
  = querySelector attr key d.
Proof.
  intros Hne. unfold querySelector.
  destruct r as [i|i]; simpl;
    rewrite find_index_alter
      by (intros e; now apply matches_meta_set_content); reflexivity.
Qed.

Lemma find_tag_set_content (key value : jsstring) (r : NodeRef) (d : Document) :
  find_tag key (node_setAttribute r (js "content") value d) = find_tag key d.
Proof.
  unfold find_tag.
  rewrite !querySelector_set_content by (vm_compute; discriminate).
  reflexivity.
Qed.

Lemma querySelector_valid (attr key : jsstring) (d : Document) (r : NodeRef) :
  querySelector attr key d = Some r -> valid_ref r d.
Proof.
  unfold querySelector, valid_ref.
  destruct (find_index _ (head_elements d)) as [i|] eqn:Eh.
  - intros [= <-]. simpl. apply lookup_lt_is_Some.
    now apply find_index_lt in Eh.
  - destruct (find_index _ (later_elements d)) as [i|] eqn:El; simpl;
      [|discriminate].
    intros [= <-]. simpl. apply lookup_lt_is_Some.
    now apply find_index_lt in El.
Qed.

Lemma find_tag_valid (key : jsstring) (d : Document) (r : NodeRef) :
  find_tag key d = Some r -> valid_ref r d.
Proof.
  unfold find_tag.
  destruct (querySelector (js "property") key d) as [r'|] eqn:E.
  - intros [= <-]. eapply querySelector_valid, E.
  - apply querySelector_valid.
Qed.

(** *** Writes of the content attribute *)

Lemma node_setAttribute_twice (r : NodeRef) (name v v' : jsstring) (d : Document) :
  node_setAttribute r name v (node_setAttribute r name v' d)
  = node_setAttribute r name v d.
Proof.
  destruct r as [i|i]; unfold node_setAttribute; simpl; f_equal;
    rewrite list_alter_alter_eq; apply list_alter_ext; auto;
    intros e _; apply setAttribute_twice.
Qed.

Lemma node_setAttribute_comm (r r' : NodeRef) (name v v' : jsstring)
  (d : Document) :
  r <> r' ->
  node_setAttribute r name v (node_setAttribute r' name v' d)
  = node_setAttribute r' name v' (node_setAttribute r name v d).
Proof.
  intros Hne. destruct r as [i|i], r' as [j|j]; unfold node_setAttribute;
    simpl; f_equal; try reflexivity; apply list_alter_alter_ne; congruence.
Qed.

Lemma apply_writes_snoc (writes : list (NodeRef * jsstring)) (r : NodeRef)
  (v : jsstring) (d : Document) :
  apply_writes (writes ++ [(r, v)]) d
  = node_setAttribute r (js "content") v (apply_writes writes d).
Proof. unfold apply_writes. now rewrite fold_left_app. Qed.

(** A write is masked by a later write to the same element. *)
Lemma write_masked (writes : list (NodeRef * jsstring)) (r : NodeRef)
  (v v0 : jsstring) (d : Document) :
  node_setAttribute r (js "content") v
    (apply_writes writes (node_setAttribute r (js "content") v0 d))
  = node_setAttribute r (js "content") v (apply_writes writes d).
Proof.
  revert d; induction writes as [|[r' u] writes IH]; intros d; simpl.
  - apply node_setAttribute_twice.
  - destruct (decide (r' = r)) as [->|Hne].
    + now rewrite node_setAttribute_twice.
    + rewrite node_setAttribute_comm by exact Hne. apply IH.
Qed.

Lemma find_tag_apply_writes (key : jsstring)
  (writes : list (NodeRef * jsstring)) (d : Document) :
  find_tag key (apply_writes writes d) = find_tag key d.
Proof.
  revert d; induction writes as [|[r u] writes IH]; intros d; simpl;
    [reflexivity|].
  rewrite IH. apply find_tag_set_content.
Qed.

Lemma valid_ref_set (r r' : NodeRef) (name v : jsstring) (d : Document) :
  valid_ref r d -> valid_ref r (node_setAttribute r' name v d).
Proof.
  unfold valid_ref. destruct r as [i|i], r' as [j|j]; simpl; auto;
    rewrite !lookup_lt_is_Some, length_alter; auto.
Qed.

Lemma node_setAttribute_append (r : NodeRef) (name v : jsstring)
  (e : Element) (d : Document) :
  valid_ref r d ->
  node_setAttribute r name v (head_appendChild e d)
  = head_appendChild e (node_setAttribute r name v d).
Proof.
  unfold valid_ref, head_appendChild. destruct r as [i|i]; simpl;
    [|reflexivity].
  intros H%lookup_lt_is_Some. now rewrite alter_app_l.
Qed.

Lemma apply_writes_append (writes : list (NodeRef * jsstring)) (e : Element)
  (d : Document) :
  Forall (fun w => valid_ref (fst w) d) writes ->
  apply_writes writes (head_appendChild e d)
  = head_appendChild e (apply_writes writes d).
Proof.
  revert d; induction writes as [|[r u] writes IH]; intros d H; simpl;
    [reflexivity|].
  inversion H as [|? ? Hr Hrest]; subst. simpl in Hr.
  rewrite node_setAttribute_append by exact Hr.
  apply IH. eapply Forall_impl; [exact Hrest|].
  intros w Hw. now apply valid_ref_set.
Qed.

Lemma writes_of_valid (tags : list TagDefinition) (d : Document) :
  Forall (fun w => valid_ref (fst w) d) (writes_of tags d).
Proof.
  induction tags as [|t tags IH]; simpl; [constructor|].
  unfold writes_of; simpl.
  destruct (find_tag (property t) d) as [r|] eqn:E; simpl; [|exact IH].
  constructor; [|exact IH]. simpl. eapply find_tag_valid, E.
Qed.

(** *** New elements *)

Lemma matches_new_tag (attr key key' value : jsstring) :
  attr <> js "content" ->
  matches_meta attr key' (new_tag key value)
  = bool_decide (key = key')
    && bool_decide (attr = if startsWith key (js "og:")
                           then js "property" else js "name").
Proof.
  intros Hc.
  unfold matches_meta, new_tag, getAttribute, setAttribute, createElement.
  destruct (startsWith key (js "og:")); simpl;
    repeat (case_bool_decide; simplify_eq; simpl); congruence.
Qed.

Lemma querySelector_append_other (attr key : jsstring) (e : Element)
  (d : Document) :
  matches_meta attr key e = false ->
  querySelector attr key (head_appendChild e d) = querySelector attr key d.
Proof.
  intros He. unfold querySelector, head_appendChild; simpl.
  destruct (find_index _ (head_elements d)) as [i|] eqn:E.
  - now rewrite (find_index_app_Some _ _ _ _ E).
  - now rewrite (find_index_app_None _ _ _ E), He.
Qed.

Lemma querySelector_append_new (attr key : jsstring) (e : Element)
  (d : Document) :
  querySelector attr key d = None ->
  matches_meta attr key e = true ->
  querySelector attr key (head_appendChild e d)
  = Some (InHead (length (head_elements d))).
Proof.
  unfold querySelector, head_appendChild; simpl. intros Hq He.
  destruct (find_index _ (head_elements d)) as [i|] eqn:E; [discriminate|].
  now rewrite (find_index_app_None _ _ _ E), He.
Qed.

(** Appending the tag of another key changes no search. *)
Lemma find_tag_append_other (key key' value : jsstring) (d : Document) :
  key <> key' ->
  find_tag key' (head_appendChild (new_tag key value) d) = find_tag key' d.
Proof.
  intros Hne. unfold find_tag.
  rewrite !querySelector_append_other; [reflexivity| |];
    rewrite matches_new_tag by (vm_compute; discriminate);
    now rewrite bool_decide_eq_false_2.
Qed.

(** A key that is not found is found in the tag appended for it. *)
Lemma find_tag_append_new (key value : jsstring) (d : Document) :
  find_tag key d = None ->
  find_tag key (head_appendChild (new_tag key value) d)
  = Some (InHead (length (head_elements d))).
Proof.
  unfold find_tag. intros H.
  destruct (querySelector (js "property") key d) eqn:Ep; [discriminate|].
  pose proof (matches_new_tag (js "property") key key value) as Mp.
  pose proof (matches_new_tag (js "name") key key value) as Mn.
  rewrite bool_decide_eq_true_2 in Mp, Mn by reflexivity.
  destruct (startsWith key (js "og:")).
  - rewrite querySelector_append_new;
      [reflexivity|exact Ep|apply Mp; vm_compute; discriminate].
  - rewrite querySelector_append_other
      by (rewrite Mp by (vm_compute; discriminate); reflexivity).
    rewrite Ep.
    apply querySelector_append_new;
      [exact H|apply Mn; vm_compute; discriminate].
Qed.

(** *** Keys stay found *)

Lemma find_tag_upsert_found (key key' value : jsstring) (d : Document)
  (r : NodeRef) :
  find_tag key' d = Some r -> find_tag key' (upsert key value d) = Some r.
Proof.
  intros H. unfold upsert.
  destruct (find_tag key d) as [r'|] eqn:E.
  - now rewrite find_tag_set_content.
  - rewrite find_tag_append_other; [exact H|]. congruence.
Qed.

Lemma find_tag_upsert_same (key value : jsstring) (d : Document) :
  is_Some (find_tag key (upsert key value d)).
Proof.
  unfold upsert. destruct (find_tag key d) as [r|] eqn:E.
  - rewrite find_tag_set_content, E. eauto.
  - rewrite find_tag_append_new by exact E. eauto.
Qed.

Lemma find_tag_upsert_all_found (tags : list TagDefinition) (key : jsstring)
  (d : Document) (r : NodeRef) :
  find_tag key d = Some r -> find_tag key (upsert_all tags d) = Some r.
Proof.
  revert d; induction tags as [|t tags IH]; intros d H; simpl; [exact H|].
  apply IH. now apply find_tag_upsert_found.
Qed.

(** After the list has been applied every key of it is found. *)
Lemma upsert_all_resolves (tags : list TagDefinition) (d : Document) :
  Forall (fun t => is_Some (find_tag (property t) (upsert_all tags d))) tags.
Proof.
  revert d; induction tags as [|t tags IH]; intros d; simpl; constructor.
  - destruct (find_tag_upsert_same (property t) (content t) d) as [r Hr].
    rewrite (find_tag_upsert_all_found _ _ _ _ Hr). eauto.
  - apply IH.
Qed.

(** When every key is found, the list only writes content attributes. *)
Lemma upsert_all_writes (tags : list TagDefinition) (d0 d : Document) :
  Forall (fun t => is_Some (find_tag (property t) d0)
                   /\ find_tag (property t) d = find_tag (property t) d0) tags ->
  upsert_all tags d = apply_writes (writes_of tags d0) d.
Proof.
  revert d; induction tags as [|t tags IH]; intros d H; [reflexivity|].
  inversion H as [|? ? [[r Hr] Heq] Hrest]; subst.
  unfold writes_of; simpl. rewrite Hr; simpl.
  unfold upsert. rewrite Heq, Hr.
  apply IH. eapply Forall_impl; [exact Hrest|].
  intros t' [Hs Ht']. split; [exact Hs|].
  now rewrite find_tag_set_content.
Qed.

Lemma upsert_all_snoc (tags : list TagDefinition) (t : TagDefinition)
  (d : Document) :
  upsert_all (tags ++ [t]) d
  = upsert (property t) (content t) (upsert_all tags d).
Proof. unfold upsert_all. now rewrite fold_left_app. Qed.

(** Applying a list of tags a second time changes nothing. *)
Lemma upsert_all_idempotent (tags : list TagDefinition) (d : Document) :
  upsert_all tags (upsert_all tags d) = upsert_all tags d.
Proof.
  revert d; induction tags as [|t tags IH] using rev_ind; intros d;
    [reflexivity|].
  rewrite !upsert_all_snoc.
  pose proof (upsert_all_resolves tags d) as Hres.
  specialize (IH d). set (d1 := upsert_all tags d) in *.
  set (k := property t). set (v := content t).
  assert (apply_writes (writes_of tags d1) d1 = d1) as Hfix.
  { rewrite <- upsert_all_writes; [exact IH|].
    eapply Forall_impl; [exact Hres|]. intros; split; auto. }
  destruct (find_tag k d1) as [r|] eqn:E.
  - assert (upsert k v d1 = node_setAttribute r (js "content") v d1) as Hd2
        by (unfold upsert; now rewrite E).
    rewrite Hd2.
    rewrite (upsert_all_writes tags d1).
    + unfold upsert.
      rewrite find_tag_apply_writes, find_tag_set_content, E.
      now rewrite write_masked, Hfix.
    + eapply Forall_impl; [exact Hres|]. intros t' Ht'. split; [exact Ht'|].
      apply find_tag_set_content.
  - assert (upsert k v d1 = head_appendChild (new_tag k v) d1) as Hd2
        by (unfold upsert; now rewrite E).
    rewrite Hd2.
    rewrite (upsert_all_writes tags d1).
    + rewrite apply_writes_append by apply writes_of_valid.
      rewrite Hfix. unfold upsert.
      rewrite find_tag_append_new by exact E.
      unfold node_setAttribute, head_appendChild; simpl. f_equal.
      rewrite <- (Nat.add_0_r (length (head_elements d1))) at 1.
      rewrite alter_app_r. simpl. f_equal. f_equal.
      apply setAttribute_twice.
    + eapply Forall_impl; [exact Hres|]. intros t' Ht'. split; [exact Ht'|].
      apply find_tag_append_other. intros Heq.
      simpl in Ht'. rewrite <- Heq, E in Ht'. now destruct Ht'.
Qed.



(** ** parseURLParameters *)

Lemma result_map_throw {A B} (f : A -> B) (r : Result A) (e : exn) :
  result_map f r = Throw e -> r = Throw e.
Proof. destruct r; simpl; congruence. Qed.

Lemma Decode_throws (n : nat) :
  forall (s : jsstring) (pend : option (nat * list N)) (e : exn),
    (length s <= n)%nat -> Decode pend s = Throw e -> e = URIError.
Proof.
  induction n as [|n IH]; intros [|C rest] pend e Hlen; simpl in *;
    try lia; try (destruct pend; congruence).
  destruct (C =? 37).
  - destruct rest as [|h1 [|h2 rest']]; try congruence.
    simpl in Hlen.
    destruct (ParseHexOctet h1 h2) as [B|]; [|congruence].
    destruct pend as [[[|[|j]] octets]|].
    + congruence.
    + destruct (utf8_code_point (octets ++ [B])); [|congruence].
      intros H%result_map_throw. apply (IH rest' None); [lia|exact H].
    + apply IH. lia.
    + destruct (leading_ones B) as [|[|j]]; [|congruence|].
      * intros H%result_map_throw. apply (IH rest' None); [lia|exact H].
      * destruct (4 <? S (S j))%nat; [congruence|]. apply IH. lia.
  - destruct pend; [congruence|].
    intros H%result_map_throw. apply (IH rest None); [lia|exact H].
Qed.

Lemma decodeURIComponent_exn (s : jsstring) (e : exn) :
  decodeURIComponent s = Throw e -> e = URIError.
Proof. apply (Decode_throws (length s) s None e (le_n _)). Qed.

(** The extractor reads the location and nothing else: it returns the
    parameters or throws, and the world is as before. *)
Lemma parseURLParameters_outcome (w : World) :
  let params := URLSearchParams.new (search (location w)) in
  let seriParam := URLSearchParams.get params (js "seri") in
  let bolumParam := URLSearchParams.get params (js "bolum") in
  let chapter := match bolumParam with
                 | Some ((_ :: _) as raw) => Some (parseInt raw 10)
                 | _ => None
                 end in
  match seriParam with
  | Some ((_ :: _) as raw) =>
      match decodeURIComponent raw with
      | Ok decoded =>
          parseURLParameters w
          = (Ok {| seri := Some decoded; bolum := chapter |}, w)
      | Throw _ => parseURLParameters w = (Throw URIError, w)
      end
  | _ => parseURLParameters w = (Ok {| seri := None; bolum := chapter |}, w)
  end.
Proof.
  unfold parseURLParameters, bind, read, lift, ret. simpl.
  destruct (URLSearchParams.get _ (js "seri")) as [[|c s]|]; try reflexivity.
  destruct (decodeURIComponent (c :: s)) as [decoded|e] eqn:E; [reflexivity|].
  now rewrite (decodeURIComponent_exn _ _ E).
Qed.

Lemma parseURLParameters_ok_or_throw (w : World) :
  (exists params, parseURLParameters w = (Ok params, w))
  \/ parseURLParameters w = (Throw URIError, w).
Proof.
  pose proof (parseURLParameters_outcome w) as H. cbv zeta in H.
  destruct (URLSearchParams.get _ (js "seri")) as [[|c s]|]; eauto.
  destruct (decodeURIComponent (c :: s)); eauto.
Qed.

(** The chapter is null exactly for a missing or empty [bolum], and is
    the [parseInt] of the value otherwise, NaN for a value without
    leading digits. *)
Lemma parseURLParameters_chapter (w : World) (params : Params) :
  parseURLParameters w = (Ok params, w) ->
  let raw := URLSearchParams.get (URLSearchParams.new (search (location w)))
               (js "bolum") in
  (bolum params = None <-> raw = None \/ raw = Some [])
  /\ (forall c s, raw = Some (c :: s) ->
                  bolum params = Some (parseInt (c :: s) 10)).
Proof.
  intros Hp. pose proof (parseURLParameters_outcome w) as H. cbv zeta in H.
  assert (bolum params
          = match URLSearchParams.get (URLSearchParams.new (search (location w)))
                    (js "bolum") with
            | Some ((_ :: _) as raw) => Some (parseInt raw 10)
            | _ => None
            end) as ->.
  { destruct (URLSearchParams.get _ (js "seri")) as [[|c s]|];
      [| destruct (decodeURIComponent (c :: s)) |];
      rewrite H in Hp; now simplify_eq. }
  simpl. destruct (URLSearchParams.get _ (js "bolum")) as [[|c s]|].
  - split; [tauto|]. intros ? ? [=].
  - split; [|intros ? ? [= <- <-]; reflexivity].
    split; [discriminate|]. intros [H'|H']; discriminate H'.
  - split; [tauto|]. intros ? ? [=].
Qed.

(** When the extractor returns, the series is null exactly for a missing
    or empty [seri], and is the decoding of the value otherwise. *)
Lemma parseURLParameters_series (w : World) (params : Params) :
  parseURLParameters w = (Ok params, w) ->
  let raw := URLSearchParams.get (URLSearchParams.new (search (location w)))
               (js "seri") in
  (seri params = None <-> raw = None \/ raw = Some [])
  /\ (forall c s, raw = Some (c :: s) ->
                  exists decoded, decodeURIComponent (c :: s) = Ok decoded
                                  /\ seri params = Some decoded).
Proof.
  intros Hp. pose proof (parseURLParameters_outcome w) as H. cbv zeta in H.
  cbv zeta. destruct (URLSearchParams.get _ (js "seri")) as [[|c s]|].
  - rewrite H in Hp. simplify_eq. simpl. split; [tauto|]. intros ? ? [=].
  - destruct (decodeURIComponent (c :: s)) as [decoded|e] eqn:E;
      rewrite H in Hp; simplify_eq. simpl. split.
    + split; [discriminate|]. intros [H'|H']; discriminate H'.
    + intros ? ? [= <- <-]. eauto.
  - rewrite H in Hp. simplify_eq. simpl. split; [tauto|]. intros ? ? [=].
Qed.

Lemma encode_code_point_nonempty (V : N) : Utf16.encode_code_point V <> [].
Proof. unfold Utf16.encode_code_point. destruct (V <? 0x10000); discriminate. Qed.

Lemma Decode_pending_nonempty (n : nat) :
  forall (s : jsstring) (pend : nat * list N) (decoded : jsstring),
    (length s <= n)%nat -> Decode (Some pend) s = Ok decoded -> decoded <> [].
Proof.
  induction n as [|n IH]; intros [|C rest] [j octets] decoded Hlen; simpl;
    try discriminate; [simpl in Hlen; lia|].
  destruct (C =? 37); [|discriminate].
  destruct rest as [|h1 [|h2 rest']]; try discriminate.
  destruct (ParseHexOctet h1 h2) as [B|]; [|discriminate].
  destruct j as [|[|j']]; [discriminate| |].
  - destruct (utf8_code_point (octets ++ [B])) as [V|]; [|discriminate].
    destruct (Decode None rest') as [tail|]; simpl; [|discriminate].
    intros [= <-] Hnil. apply app_eq_nil in Hnil as [Hnil _].
    now apply encode_code_point_nonempty in Hnil.
  - apply IH. simpl in Hlen. lia.
Qed.

(** A non-empty string never decodes to the empty string: the series
    the extractor returns is null or truthy. *)
Lemma decodeURIComponent_nonempty (c : N) (s decoded : jsstring) :
  decodeURIComponent (c :: s) = Ok decoded -> decoded <> [].
Proof.
  unfold decodeURIComponent. simpl.
  destruct (c =? 37).
  - destruct s as [|h1 [|h2 rest']]; try discriminate.
    destruct (ParseHexOctet h1 h2) as [B|]; [|discriminate].
    destruct (leading_ones B) as [|[|j]]; [|discriminate|].
    + destruct (Decode None rest'); simpl; [|discriminate].
      intros [= <-]. discriminate.
    + destruct (4 <? S (S j))%nat; [discriminate|].
      apply (Decode_pending_nonempty (length rest')). lia.
  - destruct (Decode None s); simpl; [|discriminate].
    intros [= <-]. discriminate.
Qed.

Lemma parseURLParameters_series_truthy (w : World) (params : Params) :
  parseURLParameters w = (Ok params, w) ->
  seri params = None \/ truthy (seri params) = true.
Proof.
  intros Hp. destruct (parseURLParameters_series w params Hp) as [Hnone Hsome].
  destruct (URLSearchParams.get _ (js "seri")) as [[|c s]|] eqn:E.
  - left. apply Hnone. now right.
  - destruct (Hsome c s eq_refl) as (decoded & Hd & ->). right.
    apply decodeURIComponent_nonempty in Hd. now destruct decoded.
  - left. apply Hnone. now left.
Qed.

(** C7. The extractor decodes a value that [URLSearchParams] has decoded
    already: for the query [?seri=100%25&bolum=8] the value is "100%",
    [decodeURIComponent] throws on it and so does the extractor. *)
Theorem parseURLParameters_throws_on_percent :
  URLSearchParams.get (URLSearchParams.new (search (location percent_world)))
    (js "seri") = Some (js "100%")
  /\ decodeURIComponent (js "100%") = Throw URIError
  /\ parseURLParameters percent_world = (Throw URIError, percent_world).
Proof. repeat split. Qed.

(** The same second decoding changes a value that holds an escape. *)
Example parseURLParameters_decodes_twice :
  fst (parseURLParameters
         {| location := {| search := js "?seri=%2541"; href := [] |};
            ARSIV := CatNull; document := document sample_world;
            console := [] |})
  = Ok {| seri := Some (js "A"); bolum := None |}.
Proof. reflexivity. Qed.

(** ** initializeOpenGraphTags *)

(** On a document that has none of the keys (distinct keys), the tags
    are appended to the head one after the other. *)
Lemma upsert_all_fresh (tags : list TagDefinition) (d : Document) :
  NoDup (map property tags) ->
  Forall (fun t => find_tag (property t) d = None) tags ->
  upsert_all tags d
  = {| head_elements :=
         head_elements d ++ map (fun t => new_tag (property t) (content t)) tags;
       later_elements := later_elements d |}.
Proof.
  revert d; induction tags as [|t tags IH]; intros d Hdup Hfresh; simpl.
  - rewrite app_nil_r. now destruct d.
  - inversion Hdup as [|? ? Hnotin Hdup']; subst.
    inversion Hfresh as [|? ? Ht Hrest]; subst.
    unfold upsert. rewrite Ht. rewrite IH; [|exact Hdup'|].
    + simpl. now rewrite <- app_assoc.
    + rewrite Forall_forall in Hrest. apply Forall_forall. intros t' Hin.
      rewrite find_tag_append_other; [now apply Hrest|].
      intros Heq. apply Hnotin. rewrite Heq. now apply list_elem_of_fmap_2.
Qed.

Lemma synthesized_keys_distinct
  (params : Params) (seriesData : option SeriesMeta) (w : World) :
  NoDup (map property (synthesized params seriesData w)).
Proof.
  unfold synthesized, generateOpenGraphContent, bind, read, ret.
  cbn [map property]. apply (bool_decide_unpack _). vm_compute. exact I.
Qed.

(** C9. A run extracts the parameters, resolves the series when the
    parameters have one, synthesizes the ten tags and applies them all,
    in this order (on a head without these tags, the ten are appended
    to it); or a step before the writes throws, the extraction on a
    malformed escape or the resolution on a catalog that was never
    declared, and the run ends with the world, the document in it, as
    it was. *)
Theorem initializeOpenGraphTags_all_or_nothing (w : World) :
  (exists params seriesData metaTags w',
      parseURLParameters w = (Ok params, w)
      /\ match seri params with
         | Some name => getSeriesData name w = (Ok seriesData, w)
         | None => seriesData = None
         end
      /\ generateOpenGraphContent params seriesData w = (Ok metaTags, w)
      /\ length metaTags = 10%nat
      /\ initializeOpenGraphTags w = (Ok tt, w')
      /\ document w' = upsert_all metaTags (document w)
      /\ Forall (fun t => is_Some (find_tag (property t) (document w'))) metaTags
      /\ (Forall (fun t => find_tag (property t) (document w) = None) metaTags ->
          head_elements (document w')
          = head_elements (document w)
              ++ map (fun t => new_tag (property t) (content t)) metaTags)
      /\ location w' = location w /\ ARSIV w' = ARSIV w)
  \/ (parseURLParameters w = (Throw URIError, w)
      /\ initializeOpenGraphTags w = (Throw URIError, w))
  \/ (exists params name,
        parseURLParameters w = (Ok params, w)
        /\ seri params = Some name
        /\ ARSIV w = CatUndeclared
        /\ getSeriesData name w = (Throw ReferenceError, w)
        /\ initializeOpenGraphTags w = (Throw ReferenceError, w)).
Proof.
  destruct (parseURLParameters_ok_or_throw w) as [[params Hp]|Hp];
    [|right; left; split; [exact Hp|];
      unfold initializeOpenGraphTags, bind; now rewrite Hp].
  assert (forall seriesData,
             (if truthy (seri params)
              then getSeriesData (default [] (seri params))
              else ret None) w = (Ok seriesData, w) ->
             match seri params with
             | Some name => getSeriesData name w = (Ok seriesData, w)
             | None => seriesData = None
             end ->
             exists params seriesData metaTags w',
               parseURLParameters w = (Ok params, w)
               /\ match seri params with
                  | Some name => getSeriesData name w = (Ok seriesData, w)
                  | None => seriesData = None
                  end
               /\ generateOpenGraphContent params seriesData w = (Ok metaTags, w)
               /\ length metaTags = 10%nat
               /\ initializeOpenGraphTags w = (Ok tt, w')
               /\ document w' = upsert_all metaTags (document w)
               /\ Forall (fun t => is_Some (find_tag (property t) (document w')))
                    metaTags
               /\ (Forall (fun t => find_tag (property t) (document w) = None)
                     metaTags ->
                   head_elements (document w')
                   = head_elements (document w)
                       ++ map (fun t => new_tag (property t) (content t)) metaTags)
               /\ location w' = location w /\ ARSIV w' = ARSIV w) as Hreturns.
  { intros seriesData Hs Hres.
    destruct (generateOpenGraphContent_run params seriesData w) as [Hg Hlen].
    eexists params, seriesData, _, _.
    split; [exact Hp|]. split; [exact Hres|].
    split; [exact Hg|]. split; [exact Hlen|].
    split.
    { unfold initializeOpenGraphTags, bind.
      rewrite Hp, Hs, Hg, setMetaTags_run. reflexivity. }
    split; [reflexivity|]. split; [apply upsert_all_resolves|].
    split; [|split; reflexivity].
    intros Hfresh.
    exact (f_equal head_elements
             (upsert_all_fresh _ _
                (synthesized_keys_distinct params seriesData w) Hfresh)). }
  destruct (parseURLParameters_series_truthy w params Hp) as [Hn|Ht].
  - left. apply (Hreturns None); rewrite Hn; reflexivity.
  - destruct (seri params) as [name|] eqn:Hs; [|discriminate].
    assert (ARSIV w = CatUndeclared \/ ARSIV w <> CatUndeclared) as [Hu|Hd]
      by (destruct (ARSIV w); (now left) || (now right)).
    + right; right. exists params, name.
      pose proof (getSeriesData_throws_undeclared name w Hu) as Hthrow.
      split; [exact Hp|]. split; [exact Hs|]. split; [exact Hu|].
      split; [exact Hthrow|].
      unfold initializeOpenGraphTags, bind. rewrite Hp, Hs, Ht.
      change (default [] (Some name)) with name. now rewrite Hthrow.
    + left. destruct (getSeriesData_returns name w Hd) as (r & Hr).
      apply (Hreturns r); [rewrite Ht; exact Hr|exact Hr].
Qed.

Example initializeOpenGraphTags_undeclared :
  initializeOpenGraphTags undeclared_world
  = (Throw ReferenceError, undeclared_world).
Proof. reflexivity. Qed.

Example initializeOpenGraphTags_sample :
  fst (initializeOpenGraphTags sample_world) = Ok tt
  /\ length (head_elements (document (snd (initializeOpenGraphTags sample_world))))
     = 11%nat.
Proof. split; reflexivity. Qed.

Example initializeOpenGraphTags_percent :
  initializeOpenGraphTags percent_world = (Throw URIError, percent_world).
Proof. reflexivity. Qed.

(** * Further properties *)

(** ** convertToAbsoluteURL *)

Lemma convert_absolute_fixed (u : jsstring) :
  is_absolute u = true -> convertToAbsoluteURL (Some u) = u.
Proof.
  intros Habs. destruct (absolute_not_blank u Habs) as [Ht Hn].
  unfold convertToAbsoluteURL. rewrite Ht.
  rewrite bool_decide_eq_false_2 by exact Hn.
  unfold is_absolute in Habs. cbn [negb orb]. now rewrite Habs.
Qed.

Lemma convert_is_absolute (url : option jsstring) :
  is_absolute (convertToAbsoluteURL url) = true.
Proof.
  destruct url as [u|]; [|reflexivity].
  unfold convertToAbsoluteURL.
  destruct (negb (truthy (Some u)) || bool_decide (trim u = []));
    [reflexivity|].
  destruct (startsWith u (js "http://") || startsWith u (js "https://")) eqn:E;
    [exact E|].
  unfold is_absolute. apply orb_true_iff. right.
  apply startsWith_app. exists (js "zebzetoon.vercel.app/" ++
    (if startsWith u (js "/") then substring u 1 else u)).
  eval_js. reflexivity.
Qed.

Lemma convert_blank_default (u : jsstring) :
  is_blank u = true -> convertToAbsoluteURL (Some u) = image DEFAULT_META.
Proof.
  intros Hb. unfold convertToAbsoluteURL.
  rewrite (bool_decide_eq_true_2 (trim u = [])) by (now apply trim_nil).
  now rewrite orb_true_r.
Qed.

(** X1. Whatever the input, the normalizer returns an absolute URL: the
    result begins with [http://] or [https://]. *)
Theorem convertToAbsoluteURL_returns_absolute (url : option jsstring) :
  startsWith (convertToAbsoluteURL url) (js "http://") = true
  \/ startsWith (convertToAbsoluteURL url) (js "https://") = true.
Proof.
  pose proof (convert_is_absolute url) as H. unfold is_absolute in H.
  now apply orb_true_iff in H.
Qed.

(** X2. Normalizing is idempotent: a normalized URL is returned as it is. *)
Theorem convertToAbsoluteURL_idempotent (url : option jsstring) :
  convertToAbsoluteURL (Some (convertToAbsoluteURL url))
  = convertToAbsoluteURL url.
Proof. apply convert_absolute_fixed, convert_is_absolute. Qed.

(** X3. A string of white space only (the empty string included) is
    treated as absent: the result is the default image. *)
Theorem convertToAbsoluteURL_blank (u : jsstring)
  (Hblank : forallb is_whitespace u = true) :
  convertToAbsoluteURL (Some u) = image DEFAULT_META
  /\ convertToAbsoluteURL (Some u) = convertToAbsoluteURL None.
Proof. split; now apply convert_blank_default. Qed.

Lemma convertToAbsoluteURL_blank_witness :
  convertToAbsoluteURL (Some [0x20; 0x09; 0xA0; 0x0A]) = image DEFAULT_META
  /\ convertToAbsoluteURL (Some [0x20; 0x09; 0xA0; 0x0A])
     = convertToAbsoluteURL None.
Proof. apply (convertToAbsoluteURL_blank [0x20; 0x09; 0xA0; 0x0A]). reflexivity. Defined.

(** X4. An input that begins with a slash gives the base origin, one
    slash, and everything after the first slash, whatever that is: only
    one leading slash is removed, so a second one stays in the result. *)
Theorem convertToAbsoluteURL_leading_slash (p : jsstring) :
  convertToAbsoluteURL (Some (js "/" ++ p))
  = js "https://zebzetoon.vercel.app/" ++ p
  /\ convertToAbsoluteURL (Some (js "//" ++ p))
     = js "https://zebzetoon.vercel.app//" ++ p.
Proof.
  split; rewrite convert_relative_path; eval_js; reflexivity.
Qed.

(** ** getSeriesData *)

Lemma getSeriesData_lookup (seriesName : jsstring) (w : World) :
  ARSIV w <> CatUndeclared ->
  getSeriesData seriesName w
  = (Ok (match catalog_get (ARSIV w) seriesName with
         | Some entry => meta entry
         | None => None
         end), w).
Proof.
  intros Hd. rewrite getSeriesData_cases.
  destruct (ARSIV w); [contradiction|reflexivity..].
Qed.

(** X5. The resolver in each state of the binding [ARSIV].  Not
    declared: the guard throws a ReferenceError.  Declared and
    undefined or null: null, and neither [Object.keys] nor the indexing
    is reached, so no TypeError arises.  An object: the [meta] of its
    entry under the exact name, null when it has no such entry or the
    entry has no [meta]; the test on the number of keys changes
    nothing.  The world is left as it was in every case. *)
Theorem getSeriesData_is_lookup (seriesName : jsstring) (w : World) :
  getSeriesData seriesName w
  = match ARSIV w with
    | CatUndeclared => (Throw ReferenceError, w)
    | CatUndefined | CatNull => (Ok None, w)
    | CatObject entries =>
        (Ok match entries !! seriesName with
            | Some entry => meta entry
            | None => None
            end, w)
    end.
Proof. apply getSeriesData_cases. Qed.

(** ** setMetaTag *)

Lemma node_lookup_set_same (r : NodeRef) (name v : jsstring) (d : Document) :
  node_lookup r (node_setAttribute r name v d)
  = setAttribute name v <$> node_lookup r d.
Proof. destruct r as [i|i]; simpl; apply list_lookup_alter_eq. Qed.

Lemma node_lookup_set_other (r r' : NodeRef) (name v : jsstring) (d : Document) :
  r' <> r ->
  node_lookup r' (node_setAttribute r name v d) = node_lookup r' d.
Proof.
  intros Hne. destruct r as [i|i], r' as [j|j]; simpl; try reflexivity;
    apply list_lookup_alter_ne; congruence.
Qed.

Lemma node_lookup_append (r : NodeRef) (e : Element) (d : Document) :
  valid_ref r d -> node_lookup r (head_appendChild e d) = node_lookup r d.
Proof.
  unfold valid_ref. destruct r as [i|i]; simpl; [|reflexivity].
  intros H%lookup_lt_is_Some. now apply lookup_app_l.
Qed.

Lemma node_lookup_append_new (e : Element) (d : Document) :
  node_lookup (InHead (length (head_elements d))) (head_appendChild e d)
  = Some e.
Proof.
  simpl. rewrite lookup_app_r by lia. now rewrite Nat.sub_diag.
Qed.

Lemma new_tag_content (key value : jsstring) :
  getAttribute (new_tag key value) (js "content") = Some value.
Proof. apply getAttribute_content. Qed.

Lemma read_content_upsert (key value : jsstring) (d : Document) :
  read_content key (upsert key value d) = Some value.
Proof.
  unfold read_content, upsert.
  destruct (find_tag key d) as [r|] eqn:E.
  - rewrite find_tag_set_content, E, node_lookup_set_same.
    destruct (find_tag_valid _ _ _ E) as [e ->]. simpl.
    apply getAttribute_content.
  - rewrite find_tag_append_new by exact E.
    rewrite node_lookup_append_new. apply new_tag_content.
Qed.

Lemma setAttribute_frame (name name' v : jsstring) (e : Element) :
  localName (setAttribute name v e) = localName e
  /\ (name' <> name ->
      getAttribute (setAttribute name v e) name' = getAttribute e name').
Proof.
  split; [reflexivity|]. intros Hne.
  unfold getAttribute, setAttribute; simpl. apply attr_get_set_ne. congruence.
Qed.

Lemma upsert_overwrite (key a b : jsstring) (d : Document) :
  upsert key b (upsert key a d) = upsert key b d.
Proof.
  unfold upsert at 2 3. destruct (find_tag key d) as [r|] eqn:E.
  - unfold upsert. rewrite find_tag_set_content, E.
    apply node_setAttribute_twice.
  - unfold upsert. rewrite find_tag_append_new by exact E.
    unfold node_setAttribute, head_appendChild; simpl. f_equal.
    rewrite <- (Nat.add_0_r (length (head_elements d))) at 1.
    rewrite alter_app_r. simpl. f_equal. f_equal.
    apply setAttribute_twice.
Qed.

(** X6. Upsert then read: for a key that a quoted selector holds
    verbatim, after [setMetaTag] the element found for the key carries
    the value, whether the element existed or was created. *)
Theorem setMetaTag_then_read (key value : jsstring) (w : World)
  (Hsafe : selector_safe key = true) :
  exists w',
    setMetaTag key value w = (Ok tt, w')
    /\ read_content key (document w') = Some value
    /\ location w' = location w /\ ARSIV w' = ARSIV w /\ console w' = console w.
Proof.
  rewrite setMetaTag_run. eexists. split; [reflexivity|].
  simpl. split; [apply read_content_upsert|]. repeat split.
Qed.

Lemma setMetaTag_then_read_witness :
  exists w',
    setMetaTag (js "og:url") (js "https://zebzetoon.vercel.app/") sample_world
    = (Ok tt, w')
    /\ read_content (js "og:url") (document w')
       = Some (js "https://zebzetoon.vercel.app/")
    /\ location w' = location sample_world /\ ARSIV w' = ARSIV sample_world
    /\ console w' = console sample_world.
Proof.
  exact (setMetaTag_then_read (js "og:url") (js "https://zebzetoon.vercel.app/")
           sample_world eq_refl).
Defined.

(** X7. [setMetaTag], for a key that a quoted selector holds verbatim,
    touches one element at most.  The part after the
    head keeps its length; the head gains exactly one element when the
    key is not found and none when it is; every element that was there
    stays at its place with its tag name and its attributes other than
    [content], and is unchanged altogether unless it is the element
    found for the key. *)
Theorem setMetaTag_frame (key value : jsstring) (w : World)
  (Hsafe : selector_safe key = true) :
  let d := document w in
  let d' := document (snd (setMetaTag key value w)) in
  length (later_elements d') = length (later_elements d)
  /\ length (head_elements d')
     = (length (head_elements d)
        + match find_tag key d with Some _ => 0 | None => 1 end)%nat
  /\ forall r e,
       node_lookup r d = Some e ->
       exists e',
         node_lookup r d' = Some e'
         /\ localName e' = localName e
         /\ (forall name, name <> js "content" ->
                          getAttribute e' name = getAttribute e name)
         /\ (find_tag key d <> Some r -> e' = e).
Proof.
  intros d d'. unfold d'. rewrite setMetaTag_run. simpl. fold d.
  unfold upsert. destruct (find_tag key d) as [r0|] eqn:E.
  - split; [destruct r0; simpl; now rewrite ?length_alter|].
    split; [destruct r0; simpl; rewrite ?length_alter; lia|].
    intros r e He. destruct (decide (r = r0)) as [->|Hne].
    + exists (setAttribute (js "content") value e).
      rewrite node_lookup_set_same, He. split; [reflexivity|].
      split; [reflexivity|]. split.
      * intros name Hn. now apply setAttribute_frame.
      * congruence.
    + exists e. rewrite node_lookup_set_other by exact Hne. auto.
  - split; [reflexivity|].
    split; [simpl; rewrite length_app; simpl; lia|].
    intros r e He. exists e.
    rewrite node_lookup_append by (unfold valid_ref; rewrite He; eauto).
    auto.
Qed.

Lemma setMetaTag_frame_witness :
  let d := document sample_world in
  let d' := document (snd (setMetaTag (js "og:title") (js "Yeni") sample_world)) in
  length (later_elements d') = length (later_elements d)
  /\ length (head_elements d')
     = (length (head_elements d)
        + match find_tag (js "og:title") d with Some _ => 0 | None => 1 end)%nat
  /\ forall r e,
       node_lookup r d = Some e ->
       exists e',
         node_lookup r d' = Some e'
         /\ localName e' = localName e
         /\ (forall name, name <> js "content" ->
                          getAttribute e' name = getAttribute e name)
         /\ (find_tag (js "og:title") d <> Some r -> e' = e).
Proof.
  exact (setMetaTag_frame (js "og:title") (js "Yeni") sample_world eq_refl).
Defined.

(** X8. The [property] attribute wins over [name], for a key that a
    quoted selector holds verbatim: when one element
    matches the key by [property] and another by [name], the first is
    written and the second is left as it was. *)
Theorem setMetaTag_prefers_property
  (key value : jsstring) (w : World) (r r' : NodeRef)
  (Hsafe : selector_safe key = true)
  (Hprop : querySelector (js "property") key (document w) = Some r)
  (Hname : querySelector (js "name") key (document w) = Some r')
  (Hne : r' <> r) :
  let d' := document (snd (setMetaTag key value w)) in
  d' = node_setAttribute r (js "content") value (document w)
  /\ node_lookup r' d' = node_lookup r' (document w)
  /\ read_content key d' = Some value.
Proof.
  intros d'. unfold d'. rewrite setMetaTag_run. simpl.
  split; [|split].
  - unfold upsert, find_tag. now rewrite Hprop.
  - unfold upsert, find_tag. rewrite Hprop.
    now apply node_lookup_set_other.
  - apply read_content_upsert.
Qed.

Lemma setMetaTag_prefers_property_witness :
  let w := with_document
             {| head_elements :=
                  [ {| localName := js "meta";
                       attributes := [(js "name", js "og:title"); (js "content", js "a")] |};
                    {| localName := js "meta";
                       attributes := [(js "property", js "og:title"); (js "content", js "b")] |} ];
                later_elements := [] |} sample_world in
  let d' := document (snd (setMetaTag (js "og:title") (js "c") w)) in
  d' = node_setAttribute (InHead 1) (js "content") (js "c") (document w)
  /\ node_lookup (InHead 0) d' = node_lookup (InHead 0) (document w)
  /\ read_content (js "og:title") d' = Some (js "c").
Proof.
  cbv zeta.
  apply (setMetaTag_prefers_property (js "og:title") (js "c") _ (InHead 1) (InHead 0));
    [reflexivity|reflexivity|reflexivity|discriminate].
Defined.

(** X9. Setting a key twice is setting it to the second value, for a
    key that a quoted selector holds verbatim: the
    first value leaves no trace and no second element is created. *)
Theorem setMetaTag_overwrites (key a b : jsstring) (w : World)
  (Hsafe : selector_safe key = true) :
  (setMetaTag key a ;;; setMetaTag key b) w = setMetaTag key b w.
Proof.
  unfold bind. rewrite (setMetaTag_run key a w), !setMetaTag_run. simpl.
  now rewrite upsert_overwrite.
Qed.

Lemma setMetaTag_overwrites_witness :
  (setMetaTag (js "og:type") (js "article")
   ;;; setMetaTag (js "og:type") (js "website")) sample_world
  = setMetaTag (js "og:type") (js "website") sample_world.
Proof.
  exact (setMetaTag_overwrites (js "og:type") (js "article") (js "website")
           sample_world eq_refl).
Defined.

(** ** setMetaTags *)

Lemma find_index_matches (p : Element -> bool) (l : list Element) (i : nat) :
  find_index p l = Some i -> exists e, l !! i = Some e /\ p e = true.
Proof.
  revert i; induction l as [|x l IH]; intros i; simpl; [discriminate|].
  destruct (p x) eqn:Hx.
  - intros [= <-]. eauto.
  - destruct (find_index p l) as [j|]; simpl; [|discriminate].
    intros [= <-]. apply (IH j eq_refl).
Qed.

Lemma querySelector_matches (attr key : jsstring) (d : Document) (r : NodeRef) :
  querySelector attr key d = Some r ->
  exists e, node_lookup r d = Some e /\ getAttribute e attr = Some key.
Proof.
  unfold querySelector.
  assert (forall e, matches_meta attr key e = true -> getAttribute e attr = Some key)
    as Hm.
  { intros e H. unfold matches_meta in H. apply andb_true_iff in H as [_ H].
    now apply bool_decide_eq_true in H. }
  destruct (find_index _ (head_elements d)) as [i|] eqn:Eh.
  - intros [= <-]. destruct (find_index_matches _ _ _ Eh) as (e & He & Hp).
    exists e. split; [exact He|auto].
  - destruct (find_index _ (later_elements d)) as [i|] eqn:El; simpl;
      [|discriminate].
    intros [= <-]. destruct (find_index_matches _ _ _ El) as (e & He & Hp).
    exists e. split; [exact He|auto].
Qed.

Lemma find_tag_matches (key : jsstring) (d : Document) (r : NodeRef) :
  find_tag key d = Some r ->
  exists e, node_lookup r d = Some e
            /\ (getAttribute e (js "property") = Some key
                \/ getAttribute e (js "name") = Some key).
Proof.
  unfold find_tag.
  destruct (querySelector (js "property") key d) as [r'|] eqn:E.
  - intros [= <-]. destruct (querySelector_matches _ _ _ _ E) as (e & He & Ha).
    eauto.
  - intros H. destruct (querySelector_matches _ _ _ _ H) as (e & He & Ha).
    eauto.
Qed.

Lemma well_keyed_lookup (d : Document) (r : NodeRef) (e : Element) :
  well_keyed d = true -> node_lookup r d = Some e -> single_keyed e = true.
Proof.
  unfold well_keyed. intros [Hh Hl]%andb_true_iff He.
  rewrite forallb_forall in Hh, Hl.
  destruct r as [i|i]; simpl in He; [apply Hh|apply Hl];
    apply list_elem_of_In; eapply list_elem_of_lookup_2; exact He.
Qed.

(** In a well-keyed document two keys never share an element. *)
Lemma find_tag_injective (k1 k2 : jsstring) (d : Document) (r : NodeRef) :
  well_keyed d = true ->
  find_tag k1 d = Some r -> find_tag k2 d = Some r -> k1 = k2.
Proof.
  intros Hwk H1 H2.
  destruct (find_tag_matches _ _ _ H1) as (e & He & Ha1).
  destruct (find_tag_matches _ _ _ H2) as (e' & He' & Ha2).
  assert (e' = e) as -> by congruence.
  pose proof (well_keyed_lookup _ _ _ Hwk He) as Hs. unfold single_keyed in Hs.
  destruct Ha1 as [Ha1|Ha1], Ha2 as [Ha2|Ha2]; rewrite ?Ha1, ?Ha2 in Hs;
    try discriminate; congruence.
Qed.

Lemma single_keyed_set_content (v : jsstring) (e : Element) :
  single_keyed (setAttribute (js "content") v e) = single_keyed e.
Proof.
  unfold single_keyed.
  rewrite !(proj2 (setAttribute_frame (js "content") _ v e))
    by (vm_compute; discriminate).
  reflexivity.
Qed.

Lemma single_keyed_new_tag (key value : jsstring) :
  single_keyed (new_tag key value) = true.
Proof.
  unfold new_tag. rewrite single_keyed_set_content.
  destruct (startsWith key (js "og:")); reflexivity.
Qed.

Lemma forallb_alter (p : Element -> bool) (f : Element -> Element)
  (i : nat) (l : list Element) :
  (forall e, p (f e) = p e) -> forallb p (alter f i l) = forallb p l.
Proof.
  intros Hf. revert i; induction l as [|e l IH]; intros [|i]; simpl;
    try reflexivity.
  - now rewrite Hf.
  - change (list_alter f i l) with (alter f i l). now rewrite IH.
Qed.

Lemma well_keyed_upsert (key value : jsstring) (d : Document) :
  well_keyed d = true -> well_keyed (upsert key value d) = true.
Proof.
  unfold upsert, well_keyed. intros H.
  destruct (find_tag key d) as [[i|i]|]; simpl.
  - now rewrite forallb_alter by apply single_keyed_set_content.
  - now rewrite forallb_alter by apply single_keyed_set_content.
  - rewrite forallb_app. simpl. rewrite single_keyed_new_tag.
    simpl. apply andb_true_iff in H as [-> ->]. reflexivity.
Qed.

Lemma well_keyed_upsert_all (tags : list TagDefinition) (d : Document) :
  well_keyed d = true -> well_keyed (upsert_all tags d) = true.
Proof.
  revert d; induction tags as [|t tags IH]; intros d H; simpl; [exact H|].
  apply IH. now apply well_keyed_upsert.
Qed.

Lemma read_content_upsert_other (key key0 v v0 : jsstring) (d : Document) :
  well_keyed d = true -> key <> key0 ->
  read_content key d = Some v ->
  read_content key (upsert key0 v0 d) = Some v.
Proof.
  intros Hwk Hne. unfold read_content.
  destruct (find_tag key d) as [r|] eqn:E; [|discriminate].
  rewrite (find_tag_upsert_found key0 key v0 d r E).
  intros H. unfold upsert.
  destruct (find_tag key0 d) as [r0|] eqn:E0.
  - rewrite node_lookup_set_other; [exact H|].
    intros ->. apply Hne. eapply find_tag_injective; eauto.
  - rewrite node_lookup_append by (eapply find_tag_valid; exact E).
    exact H.
Qed.

Lemma read_content_upsert_all (tags : list TagDefinition) (d : Document) :
  NoDup (map property tags) -> well_keyed d = true ->
  forall t, t ∈ tags ->
            read_content (property t) (upsert_all tags d) = Some (content t).
Proof.
  induction tags as [|t0 tags IH] using rev_ind; intros Hdup Hwk t Hin.
  - now apply elem_of_nil in Hin.
  - rewrite upsert_all_snoc. rewrite map_app in Hdup. simpl in Hdup.
    apply NoDup_app in Hdup as (Hdup & Hsep & _).
    apply elem_of_app in Hin as [Hin|Hin].
    + apply read_content_upsert_other.
      * now apply well_keyed_upsert_all.
      * intros Heq. apply (Hsep (property t)).
        -- now apply list_elem_of_fmap_2.
        -- rewrite Heq. apply list_elem_of_singleton. reflexivity.
      * now apply IH.
    + apply list_elem_of_singleton in Hin. subst t0.
      apply read_content_upsert.
Qed.

(** X10. With distinct keys that a quoted selector holds verbatim, on a document where no element carries a
    [property] and a [name] at once, every tag of the list can be read
    back after [setMetaTags]: the element found for its key carries its
    value; and the document is still free of doubly keyed elements. *)
Theorem setMetaTags_then_read
  (tags : list TagDefinition) (w : World) (i : nat) (t : TagDefinition)
  (Hsafe : forallb (fun t => selector_safe (property t)) tags = true)
  (Hkeys : bool_decide (NoDup (map property tags)) = true)
  (Hdoc : well_keyed (document w) = true)
  (Ht : tags !! i = Some t) :
  let d' := document (snd (setMetaTags tags w)) in
  read_content (property t) d' = Some (content t)
  /\ well_keyed d' = true.
Proof.
  intros d'. unfold d'. rewrite setMetaTags_run. simpl. split.
  - apply read_content_upsert_all; [|exact Hdoc|].
    + now apply bool_decide_eq_true in Hkeys.
    + eapply list_elem_of_lookup_2, Ht.
  - now apply well_keyed_upsert_all.
Qed.

Lemma setMetaTags_then_read_witness :
  let tags := [ {| property := js "og:title"; content := js "A" |};
                {| property := js "twitter:card"; content := js "B" |};
                {| property := js "og:url"; content := js "C" |} ] in
  let d' := document (snd (setMetaTags tags sample_world)) in
  read_content (js "twitter:card") d' = Some (js "B")
  /\ well_keyed d' = true.
Proof.
  cbv zeta.
  apply (setMetaTags_then_read _ sample_world 1
           {| property := js "twitter:card"; content := js "B" |});
    reflexivity.
Defined.

Lemma upsert_keeps (key value : jsstring) (d : Document) (r : NodeRef)
  (e : Element) :
  node_lookup r d = Some e ->
  exists e', node_lookup r (upsert key value d) = Some e'
             /\ localName e' = localName e
             /\ forall name, name <> js "content" ->
                             getAttribute e' name = getAttribute e name.
Proof.
  intros He. unfold upsert. destruct (find_tag key d) as [r0|] eqn:E.
  - destruct (decide (r = r0)) as [->|Hne].
    + exists (setAttribute (js "content") value e).
      rewrite node_lookup_set_same, He. split; [reflexivity|].
      split; [reflexivity|]. intros name Hn. now apply setAttribute_frame.
    + exists e. rewrite node_lookup_set_other by exact Hne. auto.
  - exists e.
    rewrite node_lookup_append by (unfold valid_ref; rewrite He; eauto).
    auto.
Qed.

Lemma upsert_all_keeps (tags : list TagDefinition) (d : Document) (r : NodeRef)
  (e : Element) :
  node_lookup r d = Some e ->
  exists e', node_lookup r (upsert_all tags d) = Some e'
             /\ localName e' = localName e
             /\ forall name, name <> js "content" ->
                             getAttribute e' name = getAttribute e name.
Proof.
  revert d e; induction tags as [|t tags IH]; intros d e He; simpl.
  - exists e. auto.
  - destruct (upsert_keeps (property t) (content t) d r e He)
      as (e1 & He1 & Hn1 & Ha1).
    destruct (IH _ _ He1) as (e' & He' & Hn' & Ha').
    exists e'. split; [exact He'|]. split; [congruence|].
    intros name Hn. rewrite Ha' by exact Hn. now apply Ha1.
Qed.

(** X11. [setMetaTags] never removes, moves or re-keys an element
    (the keys being such that a quoted selector holds them verbatim): a
    key that is found before is found after in the same element, and
    every element keeps its place, its tag name and its attributes
    other than [content]. *)
Theorem setMetaTags_stable
  (tags : list TagDefinition) (w : World) (key : jsstring) (r : NodeRef)
  (e : Element)
  (Hsafe : forallb (fun t => selector_safe (property t)) tags = true)
  (Hkey : selector_safe key = true)
  (Hfound : find_tag key (document w) = Some r)
  (He : node_lookup r (document w) = Some e) :
  let d' := document (snd (setMetaTags tags w)) in
  find_tag key d' = Some r
  /\ exists e', node_lookup r d' = Some e'
                /\ localName e' = localName e
                /\ forall name, name <> js "content" ->
                                getAttribute e' name = getAttribute e name.
Proof.
  intros d'. unfold d'. rewrite setMetaTags_run. simpl. split.
  - now apply find_tag_upsert_all_found.
  - now apply upsert_all_keeps.
Qed.

Lemma setMetaTags_stable_witness :
  let tags := (synthesized {| seri := None; bolum := None |} None sample_world) in
  let d' := document (snd (setMetaTags tags sample_world)) in
  find_tag (js "twitter:card") d' = Some (InHead 2)
  /\ exists e', node_lookup (InHead 2) d' = Some e'
                /\ localName e' = js "meta"
                /\ forall name, name <> js "content" ->
                                getAttribute e' name
                                = getAttribute
                                    {| localName := js "meta";
                                       attributes := [(js "name", js "twitter:card");
                                                      (js "content", js "summary")] |}
                                    name.
Proof.
  cbv zeta.
  exact (setMetaTags_stable
           (synthesized {| seri := None; bolum := None |} None sample_world)
           sample_world (js "twitter:card") (InHead 2)
           {| localName := js "meta";
              attributes := [(js "name", js "twitter:card");
                             (js "content", js "summary")] |}
           eq_refl eq_refl eq_refl eq_refl).
Defined.

(** ** generateOpenGraphContent and initializeOpenGraphTags *)

Lemma synthesized_keys
  (params : Params) (seriesData : option SeriesMeta) (w : World) :
  map property (synthesized params seriesData w) = meta_keys.
Proof. reflexivity. Qed.

Lemma synthesized_location
  (params : Params) (seriesData : option SeriesMeta) (w w' : World) :
  location w' = location w ->
  synthesized params seriesData w' = synthesized params seriesData w.
Proof.
  intros H. unfold synthesized, generateOpenGraphContent, bind, read, ret.
  now rewrite H.
Qed.

Lemma parseURLParameters_location (w w' : World) :
  location w' = location w ->
  fst (parseURLParameters w') = fst (parseURLParameters w).
Proof.
  intros H.
  pose proof (parseURLParameters_outcome w) as Hw.
  pose proof (parseURLParameters_outcome w') as Hw'.
  cbv zeta in Hw, Hw'. rewrite H in Hw'.
  destruct (URLSearchParams.get _ (js "seri")) as [[|c s]|];
    [| destruct (decodeURIComponent (c :: s)) |];
    now rewrite Hw, Hw'.
Qed.

Lemma parseURLParameters_world (w : World) : snd (parseURLParameters w) = w.
Proof.
  destruct (parseURLParameters_ok_or_throw w) as [[params H]|H];
    now rewrite H.
Qed.

(** A run whose extraction and resolution return writes the ten tags
    and logs one entry. *)
Lemma initialize_resolved (w : World) (params : Params) (r : option SeriesMeta) :
  parseURLParameters w = (Ok params, w) ->
  (if truthy (seri params)
   then getSeriesData (default [] (seri params))
   else ret None) w = (Ok r, w) ->
  initializeOpenGraphTags w
  = (Ok tt,
     {| location := location w;
        ARSIV := ARSIV w;
        document := upsert_all (synthesized params r w) (document w);
        console := console w ++ [ {| log_series := seri params;
                                     log_chapter := bolum params;
                                     log_tagsUpdated := 10 |} ] |}).
Proof.
  intros Hp Hr. unfold initializeOpenGraphTags, bind. rewrite Hp, Hr.
  destruct (generateOpenGraphContent_run params r w) as [-> Hlen].
  rewrite setMetaTags_run. reflexivity.
Qed.

(** A run whose extraction returns, on a declared catalog when there is
    a series to resolve, ends in [run_result]. *)
Lemma initialize_run (w : World) (params : Params) :
  parseURLParameters w = (Ok params, w) ->
  (truthy (seri params) = true -> ARSIV w <> CatUndeclared) ->
  initializeOpenGraphTags w = (Ok tt, run_result w params).
Proof.
  intros Hp Hd. apply initialize_resolved; [exact Hp|].
  unfold resolve. destruct (truthy (seri params)); [|reflexivity].
  apply getSeriesData_lookup. now apply Hd.
Qed.

Lemma initialize_throw (w : World) :
  parseURLParameters w = (Throw URIError, w) ->
  initializeOpenGraphTags w = (Throw URIError, w).
Proof.
  intros Hp. unfold initializeOpenGraphTags, bind. now rewrite Hp.
Qed.

(** A run with a series to resolve and no catalog binding throws. *)
Lemma initialize_undeclared (w : World) (params : Params) :
  parseURLParameters w = (Ok params, w) ->
  truthy (seri params) = true ->
  ARSIV w = CatUndeclared ->
  initializeOpenGraphTags w = (Throw ReferenceError, w).
Proof.
  intros Hp Ht Hu. unfold initializeOpenGraphTags, bind. rewrite Hp, Ht.
  now rewrite (getSeriesData_throws_undeclared _ w Hu).
Qed.

(** The two ways a run ends: in [run_result], or by a throw that leaves
    the world as it was. *)
Lemma initialize_outcome (w : World) :
  (exists params,
      parseURLParameters w = (Ok params, w)
      /\ (truthy (seri params) = true -> ARSIV w <> CatUndeclared)
      /\ initializeOpenGraphTags w = (Ok tt, run_result w params))
  \/ (exists e, initializeOpenGraphTags w = (Throw e, w)).
Proof.
  destruct (parseURLParameters_ok_or_throw w) as [[params Hp]|Hp];
    [|right; eexists; now apply initialize_throw].
  destruct (truthy (seri params)) eqn:Ht.
  - assert (ARSIV w = CatUndeclared \/ ARSIV w <> CatUndeclared) as [Hu|Hd]
      by (destruct (ARSIV w); (now left) || (now right)).
    + right. eexists. now apply (initialize_undeclared w params).
    + left. exists params. split; [exact Hp|]. split; [auto|].
      apply initialize_run; auto.
  - left. exists params. split; [exact Hp|].
    split; [rewrite Ht; discriminate|].
    apply initialize_run; [exact Hp|]. rewrite Ht. discriminate.
Qed.

Lemma apply_writes_lengths (writes : list (NodeRef * jsstring)) (d : Document) :
  length (head_elements (apply_writes writes d)) = length (head_elements d)
  /\ length (later_elements (apply_writes writes d)) = length (later_elements d).
Proof.
  revert d; induction writes as [|[r v] writes IH]; intros d; simpl;
    [auto|].
  destruct (IH (node_setAttribute r (js "content") v d)) as [-> ->].
  destruct r; simpl; rewrite ?length_alter; auto.
Qed.

(** When the keys of the list are all found, the list adds no element
    and moves no key. *)
Lemma upsert_all_resolved_frame (tags : list TagDefinition) (d : Document) :
  Forall (fun t => is_Some (find_tag (property t) d)) tags ->
  length (head_elements (upsert_all tags d)) = length (head_elements d)
  /\ length (later_elements (upsert_all tags d)) = length (later_elements d)
  /\ forall key, find_tag key (upsert_all tags d) = find_tag key d.
Proof.
  intros H. rewrite (upsert_all_writes tags d d).
  - destruct (apply_writes_lengths (writes_of tags d) d) as [-> ->].
    split; [reflexivity|]. split; [reflexivity|].
    intros key. apply find_tag_apply_writes.
  - eapply Forall_impl; [exact H|]. intros; split; auto.
Qed.

Lemma resolved_by_keys (tags tags' : list TagDefinition) (d : Document) :
  map property tags = map property tags' ->
  Forall (fun t => is_Some (find_tag (property t) d)) tags ->
  Forall (fun t => is_Some (find_tag (property t) d)) tags'.
Proof.
  intros Hk H. apply Forall_forall. intros t' Hin.
  apply list_elem_of_In, (in_map property) in Hin. rewrite <- Hk in Hin.
  apply in_map_iff in Hin as (t & Heq & Hin).
  rewrite Forall_forall in H. rewrite <- Heq. apply H.
  now apply list_elem_of_In.
Qed.

Lemma run_result_document (w : World) (params : Params) :
  document (run_result w params)
  = upsert_all (synthesized params (resolve w params) w) (document w).
Proof. reflexivity. Qed.

Lemma run_result_again (w : World) (params : Params) :
  document (run_result (run_result w params) params)
  = document (run_result w params).
Proof.
  rewrite (run_result_document (run_result w params)).
  change (resolve (run_result w params) params) with (resolve w params).
  rewrite (synthesized_location params (resolve w params) w
             (run_result w params) eq_refl).
  rewrite run_result_document. apply upsert_all_idempotent.
Qed.

(** X12. Running the orchestrator again on the world it left gives the
    same outcome and the same document; when the runs return, each adds
    one entry to the console, with 10 as the number of tags. *)
Theorem initializeOpenGraphTags_rerun (w : World) :
  let w1 := snd (initializeOpenGraphTags w) in
  let w2 := snd (initializeOpenGraphTags w1) in
  fst (initializeOpenGraphTags w1) = fst (initializeOpenGraphTags w)
  /\ document w2 = document w1
  /\ location w2 = location w /\ ARSIV w2 = ARSIV w
  /\ (fst (initializeOpenGraphTags w) = Ok tt ->
      exists entry, log_tagsUpdated entry = 10%nat
                    /\ console w2 = console w ++ [entry; entry]).
Proof.
  intros w1 w2. unfold w2, w1.
  destruct (initialize_outcome w) as [(params & Hp & Hd & Hrun)|(e & Hthrow)].
  - rewrite Hrun. cbn [fst snd].
    assert (parseURLParameters (run_result w params)
            = (Ok params, run_result w params)) as Hp'.
    { pose proof (parseURLParameters_location w (run_result w params) eq_refl)
        as Hf.
      pose proof (parseURLParameters_world (run_result w params)) as Hs.
      rewrite Hp in Hf. cbn [fst] in Hf.
      destruct (parseURLParameters (run_result w params)) as [q w'].
      cbn [fst snd] in Hf, Hs. now subst. }
    rewrite (initialize_run _ params Hp' Hd). cbn [fst snd].
    split; [reflexivity|]. split; [apply run_result_again|].
    split; [reflexivity|]. split; [reflexivity|].
    intros _. eexists. split; [|cbn [console run_result];
                                 rewrite <- app_assoc; reflexivity].
    reflexivity.
  - rewrite Hthrow. cbn [fst snd]. rewrite Hthrow. cbn [fst snd].
    repeat split. discriminate.
Qed.

(** X13. Once a run has returned, a later run at any other address,
    with any catalog, adds no element to the document and finds every
    key where it was: the ten tags are rewritten in place. *)
Theorem later_runs_add_no_element (w w2 : World)
  (Hrun : fst (initializeOpenGraphTags w) = Ok tt)
  (Hdoc : document w2 = document (snd (initializeOpenGraphTags w))) :
  let d2 := document w2 in
  let d2' := document (snd (initializeOpenGraphTags w2)) in
  length (head_elements d2') = length (head_elements d2)
  /\ length (later_elements d2') = length (later_elements d2)
  /\ forall key, find_tag key d2' = find_tag key d2.
Proof.
  intros d2 d2'. unfold d2', d2.
  destruct (initialize_outcome w) as [(params & Hp & Hd & Hw)|(e & Hw)];
    [|rewrite Hw in Hrun; discriminate].
  rewrite Hw in Hdoc. cbn [snd] in Hdoc.
  rewrite run_result_document in Hdoc.
  destruct (initialize_outcome w2) as [(params2 & Hp2 & Hd2 & Hw2)|(e & Hw2)];
    [|rewrite Hw2; auto].
  rewrite Hw2. cbn [snd].
  rewrite run_result_document.
  apply upsert_all_resolved_frame.
  eapply resolved_by_keys; [|rewrite Hdoc; apply upsert_all_resolves].
  now rewrite !synthesized_keys.
Qed.

Lemma later_runs_add_no_element_witness :
  let w2 := {| location := {| search := js "?bolum=3"; href := js "https://zebzetoon.vercel.app/?bolum=3" |};
               ARSIV := CatNull;
               document := document (snd (initializeOpenGraphTags sample_world));
               console := [] |} in
  length (head_elements (document (snd (initializeOpenGraphTags w2)))) = 11%nat
  /\ length (later_elements (document (snd (initializeOpenGraphTags w2)))) = 1%nat
  /\ forall key, find_tag key (document (snd (initializeOpenGraphTags w2)))
                 = find_tag key (document w2).
Proof.
  cbv zeta.
  exact (later_runs_add_no_element sample_world
           {| location := {| search := js "?bolum=3"; href := js "https://zebzetoon.vercel.app/?bolum=3" |};
              ARSIV := CatNull;
              document := document (snd (initializeOpenGraphTags sample_world));
              console := [] |} eq_refl eq_refl).
Defined.

(** X14. On a page where the catalog binding is declared and whose
    extraction returns (with a safe number as chapter, if any), the run
    returns; and on a document where no
    element carries a [property] and a [name] at once, each of the ten
    synthesized tags can be read back from the document after it, and
    the document is still free of doubly keyed elements. *)
Theorem initializeOpenGraphTags_then_read
  (w : World) (params : Params) (i : nat) (t : TagDefinition)
  (Hcat : ARSIV w <> CatUndeclared)
  (Hdoc : well_keyed (document w) = true)
  (Hp : parseURLParameters w = (Ok params, w))
  (Hsafe : match bolum params with
           | Some chapter => safe_number chapter
           | None => true
           end = true)
  (Ht : synthesized params (resolve w params) w !! i = Some t) :
  let w' := snd (initializeOpenGraphTags w) in
  fst (initializeOpenGraphTags w) = Ok tt
  /\ read_content (property t) (document w') = Some (content t)
  /\ well_keyed (document w') = true.
Proof.
  intros w'. unfold w'. rewrite (initialize_run w params Hp (fun _ => Hcat)).
  cbn [fst snd]. rewrite run_result_document.
  split; [reflexivity|]. split.
  - apply read_content_upsert_all; [|exact Hdoc|].
    + rewrite synthesized_keys. apply (bool_decide_unpack _). vm_compute. exact I.
    + eapply list_elem_of_lookup_2, Ht.
  - now apply well_keyed_upsert_all.
Qed.

Lemma initializeOpenGraphTags_then_read_witness :
  let w' := snd (initializeOpenGraphTags sample_world) in
  fst (initializeOpenGraphTags sample_world) = Ok tt
  /\ read_content (js "og:image") (document w')
     = Some (js "https://zebzetoon.vercel.app/kapak/olum.jpg")
  /\ well_keyed (document w') = true.
Proof.
  cbv zeta.
  apply (initializeOpenGraphTags_then_read sample_world
           {| seri := Some (js "Ölüm Paktı"); bolum := Some (Num 8) |} 2
           {| property := js "og:image";
              content := js "https://zebzetoon.vercel.app/kapak/olum.jpg" |});
    [discriminate|reflexivity..].
Defined.

(** X15. The image of every synthesized list is an absolute URL: the
    value under [og:image] begins with [http://] or [https://], for a
    relative cover, a blank one and a missing one alike. *)
Theorem og_image_is_absolute
  (params : Params) (seriesData : option SeriesMeta) (w : World) :
  exists imageUrl,
    content_of (js "og:image") (synthesized params seriesData w) = Some imageUrl
    /\ content_of (js "twitter:image") (synthesized params seriesData w)
       = Some imageUrl
    /\ (startsWith imageUrl (js "http://") = true
        \/ startsWith imageUrl (js "https://") = true).
Proof.
  eexists. split; [reflexivity|]. split; [reflexivity|].
  apply orb_true_iff. change (is_absolute
    match seriesData with
    | Some data =>
        if truthy (kapak data) then convertToAbsoluteURL (kapak data)
        else image DEFAULT_META
    | None => image DEFAULT_META
    end = true).
  destruct seriesData as [data|]; [|reflexivity].
  destruct (truthy (kapak data)); [apply convert_is_absolute|reflexivity].
Qed.

(** X16. Catalog miss: when the resolver returns null for the series of
    the address (a catalog without the entry, an entry without [meta],
    an empty or unassigned catalog), the run still returns and
    writes the ten tags; description and image are the defaults while
    the title carries the series name of the address, followed by the
    chapter when there is one (a safe number: NaN or an integer below
    2^53 in magnitude). *)
Theorem catalog_miss_falls_back
  (w : World) (params : Params) (name : jsstring)
  (Hp : parseURLParameters w = (Ok params, w))
  (Hs : seri params = Some name)
  (Hmiss : getSeriesData name w = (Ok None, w))
  (Hsafe : match bolum params with
           | Some chapter => safe_number chapter
           | None => true
           end = true) :
  let w' := snd (initializeOpenGraphTags w) in
  let tags := synthesized params None w in
  fst (initializeOpenGraphTags w) = Ok tt
  /\ document w' = upsert_all tags (document w)
  /\ content_of (js "og:title") tags
     = Some match bolum params with
            | Some chapter => name ++ js " - Bölüm " ++ ToString chapter
            | None => name
            end
  /\ content_of (js "og:description") tags = Some (description DEFAULT_META)
  /\ content_of (js "og:image") tags = Some (image DEFAULT_META).
Proof.
  intros w' tags. unfold w', tags.
  destruct (parseURLParameters_series_truthy w params Hp) as [Hn|Ht];
    [congruence|].
  rewrite (initialize_resolved w params None Hp)
    by (rewrite Ht, Hs; exact Hmiss).
  cbn [fst snd document].
  split; [reflexivity|]. split; [reflexivity|].
  split; [|split; reflexivity].
  change (content_of (js "og:title") (synthesized params None w))
    with (og_title w None params).
  rewrite og_title_eq, Hs.
  rewrite Hs in Ht. destruct name; [discriminate|reflexivity].
Qed.

Lemma catalog_miss_falls_back_witness :
  let w := {| location := {| search := js "?seri=Bilinmeyen&bolum=3";
                             href := js "https://zebzetoon.vercel.app/?seri=Bilinmeyen&bolum=3" |};
              ARSIV := ARSIV sample_world;
              document := document sample_world;
              console := [] |} in
  let tags := synthesized {| seri := Some (js "Bilinmeyen"); bolum := Some (Num 3) |}
                None w in
  fst (initializeOpenGraphTags w) = Ok tt
  /\ document (snd (initializeOpenGraphTags w)) = upsert_all tags (document w)
  /\ content_of (js "og:title") tags = Some (js "Bilinmeyen - Bölüm 3")
  /\ content_of (js "og:description") tags = Some (description DEFAULT_META)
  /\ content_of (js "og:image") tags = Some (image DEFAULT_META).
Proof.
  cbv zeta.
  exact (catalog_miss_falls_back
           {| location := {| search := js "?seri=Bilinmeyen&bolum=3";
                             href := js "https://zebzetoon.vercel.app/?seri=Bilinmeyen&bolum=3" |};
              ARSIV := ARSIV sample_world;
              document := document sample_world;
              console := [] |}
           {| seri := Some (js "Bilinmeyen"); bolum := Some (Num 3) |}
           (js "Bilinmeyen") eq_refl eq_refl eq_refl eq_refl).
Defined.

(** X17. Without a series in the address (no [seri] key, or an empty
    one) the run writes the site defaults: default title, description
    and image, whatever the catalog holds and whatever the chapter is. *)
Theorem no_series_gives_defaults (w : World)
  (Hnone : truthy (URLSearchParams.get
                     (URLSearchParams.new (search (location w))) (js "seri"))
           = false) :
  exists chapter,
    let params := {| seri := None; bolum := chapter |} in
    let tags := synthesized params None w in
    parseURLParameters w = (Ok params, w)
    /\ fst (initializeOpenGraphTags w) = Ok tt
    /\ document (snd (initializeOpenGraphTags w)) = upsert_all tags (document w)
    /\ content_of (js "og:title") tags = Some (title DEFAULT_META)
    /\ content_of (js "og:description") tags = Some (description DEFAULT_META)
    /\ content_of (js "og:image") tags = Some (image DEFAULT_META).
Proof.
  pose proof (parseURLParameters_outcome w) as H. cbv zeta in H.
  exists (match URLSearchParams.get
                  (URLSearchParams.new (search (location w))) (js "bolum") with
          | Some ((_ :: _) as raw) => Some (parseInt raw 10)
          | _ => None
          end).
  cbv zeta.
  match goal with
  | |- parseURLParameters w = (Ok ?p, w) /\ _ =>
      assert (parseURLParameters w = (Ok p, w)) as Hp
  end.
  { destruct (URLSearchParams.get _ (js "seri")) as [[|c s]|];
      [exact H|discriminate|exact H]. }
  split; [exact Hp|].
  rewrite (initialize_run w _ Hp) by discriminate. cbn [fst snd].
  split; [reflexivity|]. split; [reflexivity|]. repeat split.
Qed.

Lemma no_series_gives_defaults_witness :
  let w := {| location := {| search := js "?bolum=8&seri=";
                             href := js "https://zebzetoon.vercel.app/?bolum=8&seri=" |};
              ARSIV := ARSIV sample_world;
              document := document sample_world;
              console := [] |} in
  exists chapter,
    let params := {| seri := None; bolum := chapter |} in
    let tags := synthesized params None w in
    parseURLParameters w = (Ok params, w)
    /\ fst (initializeOpenGraphTags w) = Ok tt
    /\ document (snd (initializeOpenGraphTags w)) = upsert_all tags (document w)
    /\ content_of (js "og:title") tags = Some (title DEFAULT_META)
    /\ content_of (js "og:description") tags = Some (description DEFAULT_META)
    /\ content_of (js "og:image") tags = Some (image DEFAULT_META).
Proof.
  cbv zeta.
  exact (no_series_gives_defaults
           {| location := {| search := js "?bolum=8&seri=";
                             href := js "https://zebzetoon.vercel.app/?bolum=8&seri=" |};
              ARSIV := ARSIV sample_world;
              document := document sample_world;
              console := [] |} eq_refl).
Defined.

(** ** parseURLParameters *)

Lemma Decode_without_percent (s : jsstring) :
  forallb (fun u => negb (u =? 37)) s = true -> Decode None s = Ok s.
Proof.
  induction s as [|c s IH]; simpl; [reflexivity|].
  intros [Hc Hs]%andb_true_iff. apply negb_true_iff in Hc.
  now rewrite Hc, (IH Hs).
Qed.



Lemma ParseHexOctet_percent (h : N) : ParseHexOctet h 37 = None.
Proof. unfold ParseHexOctet. now destruct (hex_value h). Qed.

Lemma Decode_trailing_percent (n : nat) :
  forall (s : jsstring) (pend : option (nat * list N)),
    (length s <= n)%nat -> Decode pend (s ++ [37]) = Throw URIError.
Proof.
  induction n as [|n IH]; intros [|C rest] pend Hlen; simpl in *;
    try reflexivity; try lia.
  destruct (C =? 37).
  - destruct rest as [|h1 [|h2 rest']]; simpl; [reflexivity| |].
    + now rewrite ParseHexOctet_percent.
    + destruct (ParseHexOctet h1 h2) as [B|]; [|reflexivity].
      simpl in Hlen.
      destruct pend as [[[|[|j]] octets]|].
      * reflexivity.
      * destruct (utf8_code_point (octets ++ [B])); [|reflexivity].
        rewrite IH by lia. reflexivity.
      * apply IH. lia.
      * destruct (leading_ones B) as [|[|j]]; [|reflexivity|].
        -- rewrite IH by lia. reflexivity.
        -- destruct (4 <? S (S j))%nat; [reflexivity|]. apply IH. lia.
  - destruct pend; [reflexivity|]. rewrite IH by lia. reflexivity.
Qed.

(** X19. A series value that ends with a percent sign makes the
    extractor throw, and the run with it: no tag is written, the
    document keeps the tags it had. *)
Theorem trailing_percent_aborts_run (w : World) (s : jsstring)
  (Hraw : URLSearchParams.get (URLSearchParams.new (search (location w)))
            (js "seri") = Some (s ++ js "%")) :
  parseURLParameters w = (Throw URIError, w)
  /\ initializeOpenGraphTags w = (Throw URIError, w).
Proof.
  assert (parseURLParameters w = (Throw URIError, w)) as Hp.
  { pose proof (parseURLParameters_outcome w) as H. cbv zeta in H.
    rewrite Hraw in H.
    assert (decodeURIComponent (s ++ js "%") = Throw URIError) as Hd
        by apply (Decode_trailing_percent (length s) s None (le_n _)).
    destruct (s ++ js "%") as [|c t] eqn:E.
    - destruct s; discriminate E.
    - now rewrite Hd in H. }
  split; [exact Hp|now apply initialize_throw].
Qed.

Lemma trailing_percent_aborts_run_witness :
  parseURLParameters percent_world = (Throw URIError, percent_world)
  /\ initializeOpenGraphTags percent_world = (Throw URIError, percent_world).
Proof.
  exact (trailing_percent_aborts_run percent_world (js "100") eq_refl).
Defined.

(** *** parseInt in radix 10 *)

Lemma parseInt_radix10 (s : jsstring) :
  parseInt s 10
  = let '(sign, u) :=
      match trimStart s with
      | 45 :: rest => ((-1)%Z, rest)
      | 43 :: rest => (1%Z, rest)
      | _ => (1%Z, trimStart s)
      end in
    match radix_prefix 10 u with
    | [] => NaN
    | digits => Num (sign * Z.of_N (radix_value 10 digits))
    end.
Proof.
  unfold parseInt. cbv zeta.
  destruct (match trimStart s with
            | 45 :: rest => ((-1)%Z, rest)
            | 43 :: rest => (1%Z, rest)
            | _ => (1%Z, trimStart s)
            end) as [sign u].
  change (negb (10 =? 0) && ((10 <? 2) || (36 <? 10))) with false.
  cbv iota.
  change ((10 =? 0) || (10 =? 16)) with false.
  change (if 10 =? 0 then 10 else 10) with 10.
  match goal with
  | |- (let '(R, inputS) := ?m in _) = _ => assert (m = (10, u)) as ->
  end; [|reflexivity].
  destruct u as [|c [|x rest]]; try reflexivity;
    (destruct c as [|p]; [reflexivity|]);
    repeat (first [reflexivity | destruct p as [p|p|]]).
Qed.

Lemma sign_split_other (c : N) (rest : jsstring) :
  c <> 45 -> c <> 43 ->
  match c :: rest with
  | 45 :: r => ((-1)%Z, r)
  | 43 :: r => (1%Z, r)
  | _ => (1%Z, c :: rest)
  end = (1%Z, c :: rest).
Proof.
  intros H45 H43. destruct c as [|p]; [reflexivity|].
  repeat (first [reflexivity | congruence | destruct p as [p|p|]]).
Qed.

Lemma parseInt_unsigned (c : N) (rest : jsstring) :
  is_whitespace c = false -> c <> 45 -> c <> 43 ->
  parseInt (c :: rest) 10
  = match radix_prefix 10 (c :: rest) with
    | [] => NaN
    | digits => Num (Z.of_N (radix_value 10 digits))
    end.
Proof.
  intros Hws H45 H43. rewrite parseInt_radix10.
  cbn [trimStart]. rewrite Hws, (sign_split_other c rest H45 H43).
  destruct (radix_prefix 10 (c :: rest)); [reflexivity|].
  now rewrite Z.mul_1_l.
Qed.

Lemma parseInt_minus (rest : jsstring) :
  parseInt (45 :: rest) 10
  = match radix_prefix 10 rest with
    | [] => NaN
    | digits => Num (- Z.of_N (radix_value 10 digits))
    end.
Proof.
  rewrite parseInt_radix10. cbn [trimStart].
  change (is_whitespace 45) with false. cbv iota.
  destruct (radix_prefix 10 rest); [reflexivity|].
  f_equal; lia.
Qed.

Lemma digit_unit_cases (c : N) :
  digit_unit c = true ->
  c = 48 \/ c = 49 \/ c = 50 \/ c = 51 \/ c = 52
  \/ c = 53 \/ c = 54 \/ c = 55 \/ c = 56 \/ c = 57.
Proof.
  unfold digit_unit, in_range.
  rewrite andb_true_iff, !N.leb_le. lia.
Qed.

Lemma digit_unit_plain (c : N) :
  digit_unit c = true ->
  is_whitespace c = false /\ c <> 45 /\ c <> 43
  /\ radix_digit 10 c = Some (c - 48) /\ plain_unit c = true.
Proof.
  intros H. apply digit_unit_cases in H.
  repeat (destruct H as [->|H]; [repeat split; discriminate|]).
  subst c. repeat split; discriminate.
Qed.

Lemma radix_digit_non_decimal (c : N) :
  digit_unit c = false -> radix_digit 10 c = None.
Proof.
  unfold digit_unit, radix_digit, digit_value. intros ->.
  destruct (in_range 97 122 c) eqn:E1.
  - unfold in_range in E1. apply andb_true_iff in E1 as [E1 _].
    apply N.leb_le in E1.
    destruct (N.ltb_spec (c - 97 + 10) 10); [lia|reflexivity].
  - destruct (in_range 65 90 c) eqn:E2; [|reflexivity].
    unfold in_range in E2. apply andb_true_iff in E2 as [E2 _].
    apply N.leb_le in E2.
    destruct (N.ltb_spec (c - 65 + 10) 10); [lia|reflexivity].
Qed.

Lemma radix_prefix_decimal (digits junk : jsstring) :
  forallb digit_unit digits = true ->
  match junk with [] => true | c :: _ => negb (digit_unit c) end = true ->
  radix_prefix 10 (digits ++ junk) = map (fun u => u - 48) digits.
Proof.
  intros Hd Hj. induction digits as [|c digits IH]; simpl.
  - destruct junk as [|c junk]; [reflexivity|]. simpl.
    apply negb_true_iff in Hj. now rewrite (radix_digit_non_decimal c Hj).
  - simpl in Hd. apply andb_true_iff in Hd as [Hc Hd].
    destruct (digit_unit_plain c Hc) as (_ & _ & _ & -> & _).
    now rewrite (IH Hd).
Qed.

Lemma radix_value_decimal (digits : jsstring) :
  radix_value 10 (map (fun u => u - 48) digits) = decimal_value digits.
Proof.
  unfold radix_value, decimal_value. generalize 0.
  induction digits as [|c digits IH]; intros acc; simpl; [reflexivity|].
  apply IH.
Qed.

(** The number a string of decimal digits, followed by anything that
    is not a digit, is parsed to. *)
Lemma parseInt_decimal (c : N) (digits junk : jsstring) :
  forallb digit_unit (c :: digits) = true ->
  match junk with [] => true | c :: _ => negb (digit_unit c) end = true ->
  parseInt (c :: digits ++ junk) 10
  = Num (Z.of_N (decimal_value (c :: digits))).
Proof.
  intros Hd Hj. pose proof Hd as Hd'. simpl in Hd'.
  apply andb_true_iff in Hd' as [Hc _].
  destruct (digit_unit_plain c Hc) as (Hws & H45 & H43 & _).
  rewrite (parseInt_unsigned c _ Hws H45 H43).
  change (c :: digits ++ junk) with ((c :: digits) ++ junk).
  rewrite (radix_prefix_decimal _ _ Hd Hj), <- radix_value_decimal.
  reflexivity.
Qed.

(** X20. The chapter is read from the leading decimal digits of the
    [bolum] value, for a value below 2^53; whatever follows the digits
    is ignored. *)
Theorem chapter_reads_leading_digits
  (w : World) (params : Params) (c : N) (digits junk : jsstring)
  (Hp : parseURLParameters w = (Ok params, w))
  (Hraw : URLSearchParams.get (URLSearchParams.new (search (location w)))
            (js "bolum") = Some (c :: digits ++ junk))
  (Hdigits : forallb digit_unit (c :: digits) = true)
  (Hjunk : match junk with [] => true | c :: _ => negb (digit_unit c) end = true)
  (Hbound : (decimal_value (c :: digits) < 2 ^ 53)%N) :
  bolum params = Some (Num (Z.of_N (decimal_value (c :: digits)))).
Proof.
  destruct (parseURLParameters_chapter w params Hp) as [_ H].
  rewrite (H c (digits ++ junk) Hraw).
  now rewrite parseInt_decimal.
Qed.

Lemma chapter_reads_leading_digits_witness :
  bolum {| seri := Some (js "A"); bolum := Some (parseInt (js "12.5abc") 10) |}
  = Some (Num 12).
Proof.
  exact (chapter_reads_leading_digits
           {| location := {| search := js "?seri=A&bolum=12.5abc"; href := [] |};
              ARSIV := CatNull; document := document sample_world; console := [] |}
           {| seri := Some (js "A"); bolum := Some (parseInt (js "12.5abc") 10) |}
           49 [50] (js ".5abc") eq_refl eq_refl eq_refl eq_refl eq_refl).
Defined.

(** X21. A [bolum] value that begins with something other than white
    space, a sign or a digit gives the chapter NaN, not null: with a
    series in the address the title then ends in "Bölüm NaN". *)
Theorem unparsable_chapter_is_NaN
  (w : World) (params : Params) (seriesData : option SeriesMeta)
  (c : N) (rest name : jsstring)
  (Hp : parseURLParameters w = (Ok params, w))
  (Hraw : URLSearchParams.get (URLSearchParams.new (search (location w)))
            (js "bolum") = Some (c :: rest))
  (Hws : is_whitespace c = false)
  (Hdigit : digit_unit c = false)
  (Hsign : (c =? 45) || (c =? 43) = false)
  (Hs : seri params = Some name) :
  bolum params = Some NaN
  /\ og_title w seriesData params = Some (name ++ js " - Bölüm NaN").
Proof.
  destruct (parseURLParameters_chapter w params Hp) as [_ H].
  apply orb_false_iff in Hsign as [H45 H43].
  apply N.eqb_neq in H45, H43.
  assert (bolum params = Some NaN) as Hb.
  { rewrite (H c rest Hraw), (parseInt_unsigned c rest Hws H45 H43).
    simpl. now rewrite (radix_digit_non_decimal c Hdigit). }
  split; [exact Hb|].
  rewrite og_title_eq, Hs, Hb.
  destruct (parseURLParameters_series_truthy w params Hp) as [Hn|Ht];
    [congruence|].
  rewrite Hs in Ht. destruct name; [discriminate|reflexivity].
Qed.

Lemma unparsable_chapter_is_NaN_witness :
  let w := {| location := {| search := js "?seri=A&bolum=abc"; href := [] |};
              ARSIV := CatNull; document := document sample_world;
              console := [] |} in
  bolum {| seri := Some (js "A"); bolum := Some (parseInt (js "abc") 10) |}
  = Some NaN
  /\ og_title w None
       {| seri := Some (js "A"); bolum := Some (parseInt (js "abc") 10) |}
     = Some (js "A - Bölüm NaN").
Proof.
  cbv zeta.
  exact (unparsable_chapter_is_NaN
           {| location := {| search := js "?seri=A&bolum=abc"; href := [] |};
              ARSIV := CatNull; document := document sample_world;
              console := [] |}
           {| seri := Some (js "A"); bolum := Some (parseInt (js "abc") 10) |}
           None 97 (js "bc") (js "A")
           eq_refl eq_refl eq_refl eq_refl eq_refl eq_refl).
Defined.

(** *** Decimal renderings *)

Lemma uint_digits_digit (d : Decimal.uint) :
  forallb digit_unit (uint_digits d) = true.
Proof. induction d; simpl; auto. Qed.

Lemma decimal_value_acc (d : Decimal.uint) (p : positive) :
  fold_left (fun acc u => 10 * acc + (u - 48)) (uint_digits d) (Npos p)
  = Npos (Pos.of_uint_acc d p).
Proof.
  revert p; induction d as [|d IH|d IH|d IH|d IH|d IH|d IH|d IH|d IH|d IH|d IH];
    intros p; cbn [uint_digits fold_left Pos.of_uint_acc];
    [reflexivity|..];
    rewrite <- IH; f_equal; lia.
Qed.

Lemma decimal_value_uint (d : Decimal.uint) :
  decimal_value (uint_digits d) = Pos.of_uint d.
Proof.
  unfold decimal_value.
  induction d as [|d IH|d IH|d IH|d IH|d IH|d IH|d IH|d IH|d IH|d IH];
    cbn [uint_digits fold_left Pos.of_uint];
    [reflexivity|exact IH|..];
    apply (decimal_value_acc d).
Qed.

Lemma parseInt_uint (d : Decimal.uint) :
  d <> Decimal.Nil ->
  parseInt (uint_digits d) 10 = Num (Z.of_N (Pos.of_uint d))
  /\ parseInt (45 :: uint_digits d) 10 = Num (- Z.of_N (Pos.of_uint d)).
Proof.
  intros Hd. pose proof (uint_digits_digit d) as Hall.
  rewrite <- decimal_value_uint.
  destruct (uint_digits d) as [|c digits] eqn:E;
    [destruct d; discriminate || contradiction|].
  split.
  - rewrite <- (app_nil_r digits) at 1.
    now apply parseInt_decimal.
  - rewrite parseInt_minus.
    rewrite <- (app_nil_r (c :: digits)) at 1.
    rewrite (radix_prefix_decimal _ [] Hall eq_refl), <- radix_value_decimal.
    reflexivity.
Qed.

(** The rendering of a number parses back to the number. *)
Lemma parseInt_ToString (n : number) : parseInt (ToString n) 10 = n.
Proof.
  destruct n as [|[|p|p]]; try reflexivity.
  - unfold ToString. cbn [Z.to_int].
    rewrite (proj1 (parseInt_uint _ (DecimalPos.Unsigned.to_uint_nonnil p))).
    now rewrite DecimalPos.Unsigned.of_to.
  - unfold ToString. cbn [Z.to_int].
    change (js "-" ++ uint_digits (Pos.to_uint p))
      with (45 :: uint_digits (Pos.to_uint p)).
    rewrite (proj2 (parseInt_uint _ (DecimalPos.Unsigned.to_uint_nonnil p))).
    now rewrite DecimalPos.Unsigned.of_to.
Qed.

Lemma ToString_plain (z : Z) :
  forallb plain_unit (ToString (Num z)) = true /\ ToString (Num z) <> [].
Proof.
  assert (forall d, forallb plain_unit (uint_digits d) = true) as Hp.
  { intros d. pose proof (uint_digits_digit d) as H.
    induction (uint_digits d) as [|c l IH]; [reflexivity|].
    simpl in *. apply andb_true_iff in H as [Hc Hl].
    destruct (digit_unit_plain c Hc) as (_ & _ & _ & _ & ->). auto. }
  assert (forall p, uint_digits (Pos.to_uint p) <> []) as Hn.
  { intros p H. pose proof (DecimalPos.Unsigned.to_uint_nonnil p) as Hnil.
    destruct (Pos.to_uint p); discriminate || contradiction. }
  destruct z as [|p|p]; unfold ToString; cbn [Z.to_int].
  - split; [reflexivity|discriminate].
  - split; [apply Hp|apply Hn].
  - change (js "-" ++ uint_digits (Pos.to_uint p))
      with (45 :: uint_digits (Pos.to_uint p)).
    split; [|discriminate]. cbn [forallb]. now rewrite Hp.
Qed.

(** *** Query strings of plain text *)

Lemma plain_unit_ascii (u : N) :
  plain_unit u = true ->
  (u <? 0x80) = true /\ (u =? 37) = false /\ (u =? 38) = false
  /\ (u =? 43) = false /\ (u =? 61) = false.
Proof.
  unfold plain_unit. intros [H1 H2]%andb_true_iff.
  apply negb_true_iff in H2.
  repeat (apply orb_false_iff in H2 as [H2 ?]). auto.
Qed.

Lemma to_scalars_ascii (l : jsstring) :
  forallb (fun u => u <? 0x80) l = true -> Utf16.to_scalars l = l.
Proof.
  induction l as [|u l IH]; [reflexivity|].
  cbn [forallb]. intros [Hu Hl]%andb_true_iff. apply N.ltb_lt in Hu.
  cbn [Utf16.to_scalars].
  assert (Utf16.is_lead u = false) as ->.
  { unfold Utf16.is_lead, in_range.
    destruct (N.leb_spec 0xD800 u); [lia|reflexivity]. }
  assert (Utf16.is_trail u = false) as ->.
  { unfold Utf16.is_trail, in_range.
    destruct (N.leb_spec 0xDC00 u); [lia|reflexivity]. }
  now rewrite (IH Hl).
Qed.

Lemma utf8_encode_ascii (l : jsstring) :
  forallb (fun u => u <? 0x80) l = true -> Utf8.encode l = l.
Proof.
  unfold Utf8.encode. induction l as [|u l IH]; [reflexivity|].
  cbn [forallb map concat]. intros [Hu Hl]%andb_true_iff.
  unfold Utf8.encode_scalar at 1. rewrite Hu. now rewrite (IH Hl).
Qed.

Lemma utf8_decode_ascii (l : jsstring) :
  forallb (fun u => u <? 0x80) l = true -> Utf8.decode l = l.
Proof.
  unfold Utf8.decode. induction l as [|u l IH]; [reflexivity|].
  cbn [forallb Utf8.decode_from Utf8.step]. intros [Hu Hl]%andb_true_iff.
  unfold Utf8.start.
  assert (in_range 0x00 0x7F u = true) as ->.
  { unfold in_range. apply N.ltb_lt in Hu.
    apply andb_true_iff. split; apply N.leb_le; lia. }
  now rewrite (IH Hl).
Qed.

Lemma utf16_encode_ascii (l : jsstring) :
  forallb (fun u => u <? 0x80) l = true -> Utf16.encode l = l.
Proof.
  unfold Utf16.encode. induction l as [|u l IH]; [reflexivity|].
  cbn [forallb map concat]. intros [Hu Hl]%andb_true_iff.
  unfold Utf16.encode_code_point at 1.
  assert ((u <? 0x10000) = true) as ->
      by (apply N.ltb_lt; apply N.ltb_lt in Hu; lia).
  now rewrite (IH Hl).
Qed.

Lemma plain_is_ascii (l : jsstring) :
  forallb plain_unit l = true -> forallb (fun u => u <? 0x80) l = true.
Proof.
  induction l as [|u l IH]; [reflexivity|].
  cbn [forallb]. intros [Hu Hl]%andb_true_iff.
  destruct (plain_unit_ascii u Hu) as (-> & _). now rewrite (IH Hl).
Qed.

Lemma decode_component_plain (l : jsstring) :
  forallb plain_unit l = true -> URLSearchParams.decode_component l = l.
Proof.
  intros Hp. unfold URLSearchParams.decode_component.
  assert (URLSearchParams.percent_decode (URLSearchParams.plus_to_space l) = l)
    as ->.
  { induction l as [|u l IH]; [reflexivity|].
    cbn [forallb] in Hp. apply andb_true_iff in Hp as [Hu Hl].
    destruct (plain_unit_ascii u Hu) as (_ & H37 & _ & H43 & _).
    unfold URLSearchParams.plus_to_space in *.
    cbn [map URLSearchParams.percent_decode]. rewrite H43, H37.
    now rewrite (IH Hl). }
  rewrite utf8_decode_ascii by now apply plain_is_ascii.
  now apply utf16_encode_ascii, plain_is_ascii.
Qed.

Lemma split_acc_plain (cur l : list N) :
  forallb plain_unit l = true ->
  URLSearchParams.split_acc 0x26 cur l = [rev cur ++ l]
  /\ forall rest,
       URLSearchParams.split_acc 0x26 cur (l ++ 0x26 :: rest)
       = (rev cur ++ l) :: URLSearchParams.split_acc 0x26 [] rest.
Proof.
  revert cur; induction l as [|u l IH]; intros cur Hp.
  - cbn. rewrite app_nil_r. auto.
  - cbn [forallb] in Hp. apply andb_true_iff in Hp as [Hu Hl].
    destruct (plain_unit_ascii u Hu) as (_ & _ & H38 & _).
    cbn [URLSearchParams.split_acc app]. rewrite H38.
    destruct (IH (u :: cur) Hl) as [E Hrest].
    assert (rev (u :: cur) ++ l = rev cur ++ u :: l) as Hrev
        by (cbn [rev]; now rewrite <- app_assoc).
    split; [now rewrite E, Hrev|].
    intros rest. now rewrite Hrest, Hrev.
Qed.

Lemma cut_plain (name value : list N) :
  forallb plain_unit name = true ->
  URLSearchParams.cut (name ++ 0x3D :: value) = (name, value).
Proof.
  induction name as [|u name IH]; [reflexivity|].
  cbn [forallb]. intros [Hu Hl]%andb_true_iff.
  destruct (plain_unit_ascii u Hu) as (_ & _ & _ & _ & H61).
  cbn [URLSearchParams.cut app]. rewrite H61. now rewrite (IH Hl).
Qed.

(** The pairs of a query [?seri=name&bolum=chapter] of plain text. *)
Lemma query_of_plain_text (name chapter : jsstring) :
  forallb plain_unit name = true -> forallb plain_unit chapter = true ->
  URLSearchParams.new (js "?seri=" ++ name ++ js "&bolum=" ++ chapter)
  = [(js "seri", name); (js "bolum", chapter)].
Proof.
  intros Hn Hc.
  change (js "?seri=" ++ name ++ js "&bolum=" ++ chapter)
    with (0x3F :: (js "seri=" ++ name) ++ 0x26 :: (js "bolum=" ++ chapter)).
  cbn [URLSearchParams.new]. unfold URLSearchParams.parse.
  assert (forallb (fun u => u <? 0x80)
            ((js "seri=" ++ name) ++ 0x26 :: js "bolum=" ++ chapter) = true)
    as Hascii.
  { rewrite !forallb_app. cbn [forallb]. rewrite forallb_app.
    rewrite (plain_is_ascii name Hn), (plain_is_ascii chapter Hc).
    reflexivity. }
  rewrite to_scalars_ascii, utf8_encode_ascii by exact Hascii.
  unfold URLSearchParams.split.
  change (js "seri=" ++ name) with (js "seri" ++ 0x3D :: name).
  change (js "bolum=" ++ chapter) with (js "bolum" ++ 0x3D :: chapter).
  (* the first sequence ends at the ampersand, the second at the end *)
  assert (URLSearchParams.split_acc 0x26 []
            ((js "seri" ++ 0x3D :: name) ++ 0x26 :: js "bolum" ++ 0x3D :: chapter)
          = [js "seri" ++ 0x3D :: name; js "bolum" ++ 0x3D :: chapter]) as ->.
  { change (js "seri" ++ 0x3D :: name) with ([115; 101; 114; 105; 61] ++ name).
    change (js "bolum" ++ 0x3D :: chapter)
      with ([98; 111; 108; 117; 109; 61] ++ chapter).
    cbn [app URLSearchParams.split_acc N.eqb Pos.eqb].
    rewrite (proj2 (split_acc_plain [61; 105; 114; 101; 115] name Hn)).
    cbn [app rev URLSearchParams.split_acc N.eqb Pos.eqb].
    rewrite (proj1 (split_acc_plain [61; 109; 117; 108; 111; 98] chapter Hc)).
    reflexivity. }
  cbn [omap list_omap].
  change (js "seri" ++ 0x3D :: name) with (115 :: js "eri" ++ 0x3D :: name) at 1.
  change (js "bolum" ++ 0x3D :: chapter)
    with (98 :: js "olum" ++ 0x3D :: chapter) at 1.
  cbv iota.
  change (115 :: js "eri" ++ 0x3D :: name) with (js "seri" ++ 0x3D :: name).
  change (98 :: js "olum" ++ 0x3D :: chapter)
    with (js "bolum" ++ 0x3D :: chapter).
  rewrite !cut_plain by reflexivity.
  rewrite !decode_component_plain by (assumption || reflexivity).
  reflexivity.
Qed.

(** X22. Round trip through the address: for a series name of plain
    text (ASCII without [%], [&], [+], [=]) and an integer chapter
    below 2^53 in magnitude, the
    extractor reads from [?seri=name&bolum=chapter] exactly that name
    and that chapter. *)
Theorem extractor_round_trip (w : World) (c : N) (name : jsstring) (z : Z)
  (Hplain : forallb plain_unit (c :: name) = true)
  (Hz : (Z.abs z < 2 ^ 53)%Z)
  (Hsearch : search (location w)
             = js "?seri=" ++ (c :: name) ++ js "&bolum=" ++ ToString (Num z)) :
  parseURLParameters w
  = (Ok {| seri := Some (c :: name); bolum := Some (Num z) |}, w).
Proof.
  pose proof (parseURLParameters_outcome w) as H. cbv zeta in H.
  destruct (ToString_plain z) as [Hdigits Hne].
  rewrite Hsearch, (query_of_plain_text _ _ Hplain Hdigits) in H.
  change (URLSearchParams.get [(js "seri", c :: name); (js "bolum", ToString (Num z))]
            (js "seri")) with (Some (c :: name)) in H.
  change (URLSearchParams.get [(js "seri", c :: name); (js "bolum", ToString (Num z))]
            (js "bolum")) with (Some (ToString (Num z))) in H.
  cbv iota in H. unfold decodeURIComponent in H.
  rewrite Decode_without_percent in H.
  - destruct (ToString (Num z)) as [|d ds] eqn:E; [contradiction|].
    rewrite <- E, parseInt_ToString in H. exact H.
  - clear H Hsearch. induction (c :: name) as [|u l IH]; [reflexivity|].
    cbn [forallb] in *. apply andb_true_iff in Hplain as [Hu Hl].
    destruct (plain_unit_ascii u Hu) as (_ & -> & _). now rewrite IH.
Qed.

Lemma extractor_round_trip_witness :
  let w := {| location := {| search := js "?seri=Solo-Leveling_2&bolum=-17";
                             href := [] |};
              ARSIV := CatNull; document := document sample_world;
              console := [] |} in
  parseURLParameters w
  = (Ok {| seri := Some (js "Solo-Leveling_2"); bolum := Some (Num (-17)) |}, w).
Proof.
  cbv zeta.
  exact (extractor_round_trip
           {| location := {| search := js "?seri=Solo-Leveling_2&bolum=-17";
                             href := [] |};
              ARSIV := CatNull; document := document sample_world;
              console := [] |}
           83 (js "olo-Leveling_2") (-17)%Z eq_refl eq_refl eq_refl).
Defined.

(** ** The catalogued series *)

(** X23. Catalog hit: when the series of the address has an entry with
    [meta], the run writes the tags synthesized from that record, and
    the fallback is per field: the description is the summary when it
    is a non-empty string and the default otherwise, the image is the
    normalized cover when it is a non-empty string and the default
    otherwise, each whatever the other is. *)
Theorem catalog_hit_uses_record
  (w : World) (params : Params) (name : jsstring)
  (entry : SeriesEntry) (data : SeriesMeta)
  (Hp : parseURLParameters w = (Ok params, w))
  (Hs : seri params = Some name)
  (Hentry : catalog_get (ARSIV w) name = Some entry)
  (Hmeta : meta entry = Some data) :
  let tags := synthesized params (Some data) w in
  fst (initializeOpenGraphTags w) = Ok tt
  /\ document (snd (initializeOpenGraphTags w)) = upsert_all tags (document w)
  /\ content_of (js "og:description") tags
     = Some (if truthy (ozet data) then default [] (ozet data)
             else description DEFAULT_META)
  /\ content_of (js "og:image") tags
     = Some (if truthy (kapak data) then convertToAbsoluteURL (kapak data)
             else image DEFAULT_META).
Proof.
  intros tags. unfold tags.
  assert (resolve w params = Some data) as Hr.
  { unfold resolve.
    destruct (parseURLParameters_series_truthy w params Hp) as [Hn|Ht];
      [congruence|].
    rewrite Ht, Hs. cbn [default id]. now rewrite Hentry. }
  rewrite (initialize_run w params Hp)
    by (intros _ Hu; rewrite Hu in Hentry; discriminate).
  cbn [fst snd].
  split; [reflexivity|]. split.
  - now rewrite run_result_document, Hr.
  - split; [|reflexivity].
    destruct (ozet data) as [[|c s]|] eqn:E;
      unfold content_of, synthesized, generateOpenGraphContent, bind, read, ret;
      cbn [List.find property bool_decide]; simpl; now rewrite E.
Qed.

Lemma catalog_hit_uses_record_witness :
  let data := {| kapak := Some (js "/kapak/olum.jpg"); ozet := Some (js "Bir pakt.");
                 yazar := Some (js "Z"); banner := None |} in
  let tags := synthesized {| seri := Some (js "Ölüm Paktı"); bolum := Some (Num 8) |}
                (Some data) sample_world in
  fst (initializeOpenGraphTags sample_world) = Ok tt
  /\ document (snd (initializeOpenGraphTags sample_world))
     = upsert_all tags (document sample_world)
  /\ content_of (js "og:description") tags = Some (js "Bir pakt.")
  /\ content_of (js "og:image") tags
     = Some (js "https://zebzetoon.vercel.app/kapak/olum.jpg").
Proof.
  cbv zeta.
  exact (catalog_hit_uses_record sample_world
           {| seri := Some (js "Ölüm Paktı"); bolum := Some (Num 8) |}
           (js "Ölüm Paktı")
           {| meta := Some {| kapak := Some (js "/kapak/olum.jpg");
                              ozet := Some (js "Bir pakt.");
                              yazar := Some (js "Z"); banner := None |} |}
           {| kapak := Some (js "/kapak/olum.jpg"); ozet := Some (js "Bir pakt.");
              yazar := Some (js "Z"); banner := None |}
           eq_refl eq_refl eq_refl eq_refl).
Defined.
